(** * The neoai front-door dispatcher: a shallow embedding

    The development follows the three source files of the dispatcher:

    - [init-local.ts]  : [initLocal], [rewriteTargetsAndProjects],
                         [isKnownCommand], [shouldDelegateToAngularCLI],
                         [handleAngularCLIFallbacks];
    - [bin/neoai.ts]   : [main] and its helpers (installation resolution,
                         version comparison, the routing of a command);
    - [bin/post-install.ts] : the time-bounded post-install step.

    Strings are [string], arrays are lists read by index ([l !! i]),
    [process.env] is a [gmap string string], [null]/[undefined] is [None].
    Effects (environment writes, terminal output, [require], [execSync],
    [process.exit], thrown errors) are threaded through a small
    state-and-exception monad that records every observable action in a
    trace.

    Left out, as they change nothing the dispatcher decides: the
    [performance] marks and measures, the [require] of the perf-logging
    module, the [Symbol.observable] polyfill and the handlers registered
    with [process.on('exit', ...)], which run once the process is already
    ending.  The functions imported from other modules are assumed to
    return or to throw. *)

From stdpp Require Import base list strings gmap.
From Equations Require Import Equations.

(** ** JavaScript string primitives used by the sources *)

Module Js.

(** [s.startsWith(p)] *)
Definition startsWith (p s : string) : bool := String.prefix p s.

(** [items.join(sep)] *)
Definition join (sep : string) (items : list string) : string :=
  String.concat sep items.

(** [s.includes(p)] *)
Definition includes (p s : string) : bool :=
  match String.index 0 p s with Some _ => true | None => false end.

(** [arr.includes(x)] and [arr.indexOf(x) > -1] on arrays of strings. *)
Definition arrayIncludes (x : string) (arr : list string) : bool :=
  existsb (String.eqb x) arr.

(** Truthiness of a [string | null | undefined] value: only a non-empty
    string is truthy. *)
Definition truthy (v : option string) : bool :=
  match v with
  | Some s => negb (String.eqb s "")
  | None => false
  end.

(** The string held by a truthy value. *)
Definition theString (v : option string) : string := default "" v.

End Js.

(** ** ArgumentNormalizer ([rewriteTargetsAndProjects]) *)

Module Normalizer.

(** A value together with the proof that it is what was computed: the two
    loops below need [i < args.length] in their recursive calls. *)
Definition inspect {A} (a : A) : {b : A | a = b} := exist _ a eq_refl.

(** The seven flags whose values are collected. *)
Definition isCollectorFlag (a : string) : bool :=
  String.eqb a "-p" || String.eqb a "--projects" || String.eqb a "--exclude"
  || String.eqb a "--files" || String.eqb a "-t" || String.eqb a "--target"
  || String.eqb a "--targets".

(** The inner [while (i < args.length && !args[i].startsWith('-'))] loop:
    the pair of the final index and of the collected items. *)
Equations? collect (args : list string) (i : nat) (items : list string)
  : nat * list string by wf (length args - i) lt :=
  collect args i items with inspect (args !! i) => {
    | exist _ None _ => (i, items)
    | exist _ (Some a) _ =>
        if Js.startsWith "-" a then (i, items)
        else collect args (S i) (items ++ [a]) }.
Proof. apply lookup_lt_Some in e. lia. Qed.

Lemma collect_index_ge args i items : i ≤ (collect args i items).1.
Proof.
  funelim (collect args i items); simpl; [|lia].
  destruct (Js.startsWith "-" a); simpl; lia.
Qed.

(** The outer [while (i < args.length)] loop, from index [i] with the
    output built so far in [newArgs]. *)
Equations? loop (args : list string) (i : nat) (newArgs : list string)
  : list string by wf (length args - i) lt :=
  loop args i newArgs with inspect (args !! i) => {
    | exist _ None _ => newArgs
    | exist _ (Some a) _ =>
        if String.eqb a "--" then newArgs ++ drop i args
        else if isCollectorFlag a then
          loop args (collect args (S i) []).1
               (newArgs ++ [a] ++ [Js.join "," (collect args (S i) []).2])
        else loop args (S i) (newArgs ++ [a]) }.
Proof.
  - apply lookup_lt_Some in e.
    pose proof (collect_index_ge args (S i) []). lia.
  - apply lookup_lt_Some in e. lia.
Qed.

(** [rewriteTargetsAndProjects(args)].  The source starts from
    [[args[2]]]; when [args] has fewer than three elements that element is
    [undefined] and the result is not an array of strings: this is [None]. *)
Definition rewriteTargetsAndProjects (args : list string)
  : option (list string) :=
  match args !! 2 with
  | Some command => Some (loop args 3 [command])
  | None => None
  end.

(** A token that the inner loop collects. *)
Definition notDash (s : string) : Prop := Js.startsWith "-" s = false.

(** What comes next stops the inner loop: the end of the array or a token
    that starts with a dash. *)
Definition stopsCollect (rest : list string) : Prop :=
  ∀ t, head rest = Some t → Js.startsWith "-" t = true.

(** The output of the outer loop for a list of tokens, scanned from its
    first one. *)
Definition scan (l : list string) : list string := loop l 0 [].

End Normalizer.

(** ** Observable actions, process state and the effect monad *)

Module Effects.

(** Values thrown by the code and by its collaborators. *)
Inductive Error :=
| UnsupportedPlatform                      (* assertSupportedPlatform() *)
| ModuleNotFound (request from : string)   (* require.resolve(request, {paths: [from]}) *)
| InvalidVersion (version : string)        (* semver's major(version) *)
| NullDereference                          (* a property read on null *)
| CommandFailed (message : string)         (* the command engine or a required module *)
| ExecFailed (command : string).           (* execSync(command) *)

Inductive Channel :=
| OutputLog | OutputNote | OutputWarn | OutputError
| ConsoleLog | ConsoleWarn | ConsoleError.

(** The texts the dispatcher prints, by their content. *)
Inductive Message :=
| NotInWorkspace
    (* The current directory isn't part of an Neoai workspace. (and how
       to create a workspace or add Neoai to one) *)
| MoreInformation
    (* For more information please visit https://khulnasoft.com/ *)
| Versions (localShown globalShown : string)
    (* Neoai Version: - Local: <localShown> - Global: <globalShown> *)
| MissingLocalInstallation (root : option string)
    (* Could not find Neoai modules at <root>. / ... in this workspace. *)
| TimeToUpdate (higher : option (string * option string))
    (* It's time to update Neoai; with the local and global versions in
       the body when the local version is known *)
| ErrorValue (e : Error)                   (* console.error(error) *)
| ErrorMessage (e : Error)                 (* console.error(e.message) *)
| AngularDeprecated
    (* Using Neoai to run Angular CLI commands is deprecated ... *)
| NgUpdateGuidance (line : nat)            (* the ten lines about ng update *)
| NgCompletionUnsupported
| NgCacheUnsupported
| AngularCliNotFound (e : Error).

Inductive Event :=
| AssertPlatform
| LoadRootEnvFiles (dir : string)
| SetupWorkspaceContext (dir : string)
| SetEnv (name value : string)             (* process.env[name] = value *)
| CommandsArgv                             (* commandsObject.argv : the command runs here *)
| Parse (args : list (option string))      (* commandsObject.parse(args) *)
| ShowHelp                                 (* commandsObject.showHelp() *)
| EnsureConsoleInstalled
| Require (path : string)                  (* main: require(path), the hand-off *)
| RequireAngularCli (path : string)        (* handleAngularCLIFallbacks: require(cli) *)
| ExecSync (command : string)
| Print (c : Channel) (m : Message)
| ProcessExit (code : Z).

(** The mutable state of one process: [process.env], the closure variable
    [cache] of [getLatestVersionOfNeoai], [globalThis.GLOBAL_NEOAI_VERSION]
    and the actions observed so far (oldest first). *)
Record State := mkState {
  env : gmap string string;
  cache : option string;
  globalThisVersion : option string;
  trace : list Event
}.

Definition initialState (e : gmap string string) : State :=
  {| env := e; cache := None; globalThisVersion := None; trace := [] |}.

(** A computation returns, throws, or ends the process. *)
Inductive Res (A : Type) :=
| Ret (a : A)
| Throw (e : Error)
| Exited (code : Z).
Arguments Ret {A} a.
Arguments Throw {A} e.
Arguments Exited {A} code.

Definition M (A : Type) : Type := State → Res A * State.

#[global] Instance M_ret : MRet M := λ A a st, (Ret a, st).
#[global] Instance M_bind : MBind M := λ A B f m st,
  match m st with
  | (Ret a, st') => f a st'
  | (Throw e, st') => (Throw e, st')
  | (Exited c, st') => (Exited c, st')
  end.

Definition throw {A} (e : Error) : M A := λ st, (Throw e, st).

(** [try { body } catch (e) { handler e }]: [process.exit] is not caught. *)
Definition tryCatch {A} (body : M A) (handler : Error → M A) : M A := λ st,
  match body st with
  | (Throw e, st') => handler e st'
  | r => r
  end.

(** The state after one more observed action. *)
Definition record (st : State) (ev : Event) : State :=
  {| env := env st; cache := cache st;
     globalThisVersion := globalThisVersion st;
     trace := trace st ++ [ev] |}.

Definition emit (ev : Event) : M unit := λ st, (Ret (), record st ev).

Definition getEnv (name : string) : M (option string) := λ st,
  (Ret (env st !! name), st).

Definition setEnv (name value : string) : M unit := λ st,
  (Ret (), {| env := <[name := value]> (env st); cache := cache st;
              globalThisVersion := globalThisVersion st;
              trace := trace st ++ [SetEnv name value] |}).

Definition getCache : M (option string) := λ st, (Ret (cache st), st).

Definition setCache (v : option string) : M unit := λ st,
  (Ret (), {| env := env st; cache := v;
              globalThisVersion := globalThisVersion st;
              trace := trace st |}).

(** [globalThis.GLOBAL_NEOAI_VERSION ??= v] *)
Definition initGlobalThisVersion (v : option string) : M unit := λ st,
  (Ret (), {| env := env st; cache := cache st;
              globalThisVersion :=
                match globalThisVersion st with
                | Some old => Some old
                | None => v
                end;
              trace := trace st |}).

Definition print (c : Channel) (m : Message) : M unit := emit (Print c m).

(** [process.exit(code)] *)
Definition processExit {A} (code : Z) : M A := λ st,
  (Exited code, record st (ProcessExit code)).

Definition isExecSync (ev : Event) : bool :=
  match ev with ExecSync _ => true | _ => false end.

(** How many commands the process has run so far. *)
Definition execCount (st : State) : nat :=
  length (filter (λ ev, isExecSync ev = true) (trace st)).

(** *** What a computation adds to the trace *)

(** The environment after the writes recorded in a list of actions. *)
Definition replayEnv (evs : list Event) (e : gmap string string)
  : gmap string string :=
  foldl (λ e ev, match ev with SetEnv k v => <[k := v]> e | _ => e end)
        e evs.

(** [adds P m]: run from any state, [m] only appends actions to the
    trace, each of them satisfies [P], the environment changes by the
    writes among them, and [m] ends the process only through a last
    action [ProcessExit]. *)
Definition adds {A} (P : Event → Prop) (m : M A) : Prop :=
  ∀ st, ∃ evs,
    trace (m st).2 = trace st ++ evs
    ∧ Forall P evs
    ∧ env (m st).2 = replayEnv evs (env st)
    ∧ ∀ c, (m st).1 = Exited c → last evs = Some (ProcessExit c).

End Effects.

(** ** The collaborators of the dispatcher

    Everything the three files import and do not define (workspace lookup,
    module resolution, package metadata, semver, the command engine, child
    processes) is a field of [World]: each theorem holds for every world. *)

Module Collaborators.
Import Effects.

(** [WorkspaceTypeAndRoot] *)
Record Workspace := mkWorkspace { dir : string; type : string }.

Record World := mkWorld {
  argv : list string;                        (* process.argv *)
  platformSupported : bool;                  (* does assertSupportedPlatform() return? *)
  findWorkspaceRoot : option Workspace;      (* findWorkspaceRoot(process.cwd()) *)
  daemonEnabled : bool;                      (* daemonClient.enabled() *)
  globalsRoot : string;                      (* join(__dirname, '../../../') *)
  getNeoaiInstallationPath : string → string;
  resolution : string → string → option string;
    (* require.resolve(request, {paths: [from]}); None: it throws *)
  packageVersion : string;                   (* require('../package.json').version *)
  localPackageVersion : string → option string;
    (* readModulePackageJson('neoai', getNeoaiRequirePaths(dir)).packageJson.version;
       None: it throws or the field is absent *)
  semverMajor : string → option N;           (* major(version); None: it throws *)
  execSyncOutput : nat → string → option string;
    (* the output of the n-th command run by the process; None: it throws *)
  commandHandlers : list string;             (* the keys of getCommandHandlers() *)
  argvFailure : option string;               (* message thrown under commandsObject.argv *)
  parseFailure : list (option string) → option string;
  requireFailure : string → option string    (* message thrown while a required module runs *)
}.

Section Primitives.
Context (w : World).

Definition assertSupportedPlatform : M unit :=
  emit AssertPlatform;;
  if platformSupported w then mret () else throw UnsupportedPlatform.

Definition requireResolve (request from : string) : M string :=
  match resolution w request from with
  | Some path => mret path
  | None => throw (ModuleNotFound request from)
  end.

(** [require(path)]: [site] is the event recorded for this call. *)
Definition requireModule (site : string → Event) (path : string)
  : M unit :=
  emit (site path);;
  match requireFailure w path with
  | Some message => throw (CommandFailed message)
  | None => mret ()
  end.

Definition commandsArgv : M unit :=
  emit CommandsArgv;;
  match argvFailure w with
  | Some message => throw (CommandFailed message)
  | None => mret ()
  end.

Definition commandsParse (args : list (option string)) : M unit :=
  emit (Parse args);;
  match parseFailure w args with
  | Some message => throw (CommandFailed message)
  | None => mret ()
  end.

Definition commandsShowHelp : M unit := emit ShowHelp.

Definition execSync (command : string) : M string := λ st,
  (emit (ExecSync command);;
   match execSyncOutput w (execCount st) command with
   | Some out => mret out
   | None => throw (ExecFailed command)
   end) st.

Definition major (version : string) : M N :=
  match semverMajor w version with
  | Some n => mret n
  | None => throw (InvalidVersion version)
  end.

(** [process.argv[i] === s] *)
Definition argIs (i : nat) (s : string) : bool :=
  bool_decide (argv w !! i = Some s).

End Primitives.

End Collaborators.

(** ** init-local.ts *)

Module InitLocal.
Import Effects Collaborators Normalizer.

(** [arr.indexOf(x)]; [None] is -1. *)
Fixpoint indexOf (x : string) (arr : list string) : option nat :=
  match arr with
  | [] => None
  | a :: arr' => if String.eqb a x then Some 0 else S <$> indexOf x arr'
  end.

Section WithWorld.
Context (w : World).

Definition isKnownCommand (command : option string) : bool :=
  match command with
  | None => true
  | Some c =>
      String.eqb c "" || Js.startsWith "-" c
      || Js.arrayIncludes c
           (commandHandlers w ++
            ["g"; "dep-graph"; "affected:dep-graph"; "format";
             "workspace-schematic"; "connect-to-neoai-cloud";
             "clear-cache"; "help"])
  end.

Definition shouldDelegateToAngularCLI : bool :=
  match argv w !! 2 with
  | Some command =>
      Js.arrayIncludes command
        ["analytics"; "cache"; "completion"; "config"; "doc"; "update"]
  | None => false
  end.

Definition handleAngularCLIFallbacks (workspace : Workspace) : M unit :=
  force ← getEnv "FORCE_NG_UPDATE";
  if argIs w 2 "update" && negb (bool_decide (force = Some "true")) then
    foldr (λ line rest, print ConsoleLog (NgUpdateGuidance line);; rest)
          (mret ()) (seq 0 10)
  else if argIs w 2 "completion" then
    if negb (Js.truthy (argv w !! 3))
    then print ConsoleLog NgCompletionUnsupported
    else mret ()
  else if argIs w 2 "cache" then
    print ConsoleLog NgCacheUnsupported
  else
    tryCatch
      (cli ← requireResolve w "@angular/cli/lib/init.js" (dir workspace);
       requireModule w RequireAngularCli cli)
      (λ e, print ConsoleError (AngularCliNotFound e);; processExit 1).

(** The body of the [try] block of [initLocal]. *)
Definition runLocalCommand (workspace : option Workspace) : M unit :=
  ws ← match workspace with
       | Some ws => mret ws
       | None => throw NullDereference       (* workspace.type *)
       end;
  if negb (String.eqb (type ws) "nx") && shouldDelegateToAngularCLI then
    print ConsoleWarn AngularDeprecated;;
    handleAngularCLIFallbacks ws
  else
    emit EnsureConsoleInstalled;;            (* its failure is swallowed *)
    if argIs w 2 "run" || argIs w 2 "g" || argIs w 2 "generate" then
      commandsParse w (Some <$> drop 2 (argv w))
    else if isKnownCommand (argv w !! 2) then
      match rewriteTargetsAndProjects (argv w) with
      | Some newArgs =>
          let help := indexOf "--help" newArgs in
          let split := indexOf "--" newArgs in
          if match help, split with
             | Some _, None => true
             | Some h, Some s => h <? s
             | None, _ => false
             end
          then commandsShowHelp
          else commandsParse w (Some <$> newArgs)
      | None => commandsParse w [None]       (* newArgs = [undefined] *)
      end
    else commandsParse w (Some <$> drop 2 (argv w)).

Definition initLocal (workspace : option Workspace) : M unit :=
  setEnv "NEOAI_CLI_SET" "true";;
  tryCatch (runLocalCommand workspace)
           (λ e, print ConsoleError (ErrorMessage e);; processExit 1).

End WithWorld.

End InitLocal.

(** ** bin/neoai.ts *)

Module Dispatcher.
Import Effects Collaborators InitLocal.

(** [s.trim()], for the white space of ASCII (space, tab, line feed,
    vertical tab, form feed, carriage return), which is what the output of
    [npm view] ends with. *)
Fixpoint trimStart (s : string) : string :=
  match s with
  | String c s' => if Ascii.is_space c then trimStart s' else s
  | EmptyString => s
  end.

Definition trim (s : string) : string :=
  String.rev (trimStart (String.rev (trimStart s))).

(** Does a line terminator (LF, CR, U+2028, U+2029 in UTF-8) start [s]? *)
Definition atLineTerminator (s : string) : bool :=
  match s with
  | String c s' =>
      match Ascii.nat_of_ascii c with
      | 10 | 13 => true
      | 226 =>
          match s' with
          | String c1 (String c2 _) =>
              bool_decide (Ascii.nat_of_ascii c1 = 128)
              && (bool_decide (Ascii.nat_of_ascii c2 = 168)
                  || bool_decide (Ascii.nat_of_ascii c2 = 169))
          | _ => false
          end
      | _ => false
      end
  | EmptyString => false
  end.

(** What [.*] leaves: the string from its first line terminator on. *)
Fixpoint afterLine (s : string) : string :=
  match s with
  | String c s' => if atLineTerminator s then s else afterLine s'
  | EmptyString => s
  end.

(** [localNeoai.replace(/\.neoai.*/, '.neoai/') + 'neoaiw.js']: the first
    [.neoai] and the rest of its line give way to [.neoai/]. *)
Definition neoaiWrapperPath (localNeoai : string) : string :=
  match String.index 0 ".neoai" localNeoai with
  | Some n =>
      String.substring 0 n localNeoai +:+ ".neoai/"
      +:+ afterLine (String.substring (n + 6) (String.length localNeoai)
                                      localNeoai)
  | None => localNeoai
  end +:+ "neoaiw.js".

Definition isNeoaiCloudCommand (command : option string) : bool :=
  match command with
  | Some c =>
      Js.arrayIncludes c
        ["start-ci-run"; "login"; "logout"; "connect"; "view-logs";
         "fix-ci"; "record"]
  | None => false
  end.

Section WithWorld.
Context (w : World).

Definition resolveNeoai (workspace : option Workspace) : M string :=
  (* workspace ? workspace.dir : globalsRoot *)
  let root := match workspace with
              | Some ws => dir ws
              | None => globalsRoot w
              end in
  (* prefer Neoai installed in .neoai/installation *)
  match resolution w "neoai/bin/neoai.js" (getNeoaiInstallationPath w root) with
  | Some path => mret path
  | None =>
      (* check for root install *)
      requireResolve w "neoai/bin/neoai.js" root
  end.

Definition _getLatestVersionOfNeoai : M (option string) :=
  tryCatch
    (out ← execSync w "npm view neoai@latest version"; mret (Some (trim out)))
    (λ _, tryCatch
            (out ← execSync w "pnpm view neoai@latest version";
             mret (Some (trim out)))
            (λ _, mret None)).

(** [() => cache || (cache = fn())] *)
Definition getLatestVersionOfNeoai : M (option string) :=
  c ← getCache;
  if Js.truthy c then mret c
  else v ← _getLatestVersionOfNeoai; setCache v;; mret v.

(** The [try] block reads the version of the local package; whatever it
    throws is dropped and the result is [undefined]. *)
Definition getLocalNeoaiVersion (workspace : option Workspace)
  : option string :=
  match workspace with
  | Some ws => localPackageVersion w (dir ws)
  | None => None
  end.

Definition checkOutdatedGlobalInstallation
    (globalNeoaiVersion localNeoaiVersion : option string) : M bool :=
  (* We aren't running a global install, so we can't know if its outdated. *)
  if negb (Js.truthy globalNeoaiVersion) then mret false
  else if Js.truthy localNeoaiVersion then
    mg ← major w (Js.theString globalNeoaiVersion);
    ml ← major w (Js.theString localNeoaiVersion);
    mret (mg <? ml)%N
  else
    latestVersionOfNeoai ← getLatestVersionOfNeoai;
    if Js.truthy latestVersionOfNeoai then
      mg ← major w (Js.theString globalNeoaiVersion);
      mv ← major w (Js.theString latestVersionOfNeoai);
      mret (mg <? mv)%N                     (* true, or undefined *)
    else mret false.

Definition warnIfUsingOutdatedGlobalInstall
    (globalNeoaiVersion localNeoaiVersion : option string) : M unit :=
  (* Never display this warning if Neoai is already running via Neoai *)
  marker ← getEnv "NEOAI_CLI_SET";
  if Js.truthy marker then mret ()
  else
    isOutdatedGlobalInstall ←
      checkOutdatedGlobalInstallation globalNeoaiVersion localNeoaiVersion;
    if isOutdatedGlobalInstall : bool then
      print OutputWarn
        (TimeToUpdate
           (if Js.truthy localNeoaiVersion
            then Some (Js.theString localNeoaiVersion, globalNeoaiVersion)
            else None))
    else mret ().

Definition handleNoWorkspace (globalNeoaiVersion : option string)
  : M unit :=
  print OutputLog NotInWorkspace;;
  print OutputNote MoreInformation;;
  warnIfUsingOutdatedGlobalInstall globalNeoaiVersion None;;
  processExit 1.

(** [v ? 'v' + v : 'Not found'] *)
Definition shownVersion (v : option string) : string :=
  if Js.truthy v then "v" +:+ Js.theString v else "Not found".

Definition handleNeoaiVersionCommand
    (LOCAL_NEOAI_VERSION GLOBAL_NEOAI_VERSION : option string) : M unit :=
  print ConsoleLog (Versions (shownVersion LOCAL_NEOAI_VERSION)
                             (shownVersion GLOBAL_NEOAI_VERSION));;
  processExit 0.

Definition determineNeoaiVersions (localNeoai : option string)
    (workspace : option Workspace) (isLocalInstall : bool)
  : M (option string * option string) :=
  let LOCAL_NEOAI_VERSION :=
    if Js.truthy localNeoai then getLocalNeoaiVersion workspace else None in
  let GLOBAL_NEOAI_VERSION :=
    if isLocalInstall then None else Some (packageVersion w) in
  initGlobalThisVersion GLOBAL_NEOAI_VERSION;;
  mret (LOCAL_NEOAI_VERSION, GLOBAL_NEOAI_VERSION).

Definition handleMissingLocalInstallation
    (detectedWorkspaceRoot : option string) : M unit :=
  print OutputError
    (MissingLocalInstallation
       (if Js.truthy detectedWorkspaceRoot then detectedWorkspaceRoot
        else None));;
  processExit 1.

(** The guard of the platform check, at the head of [main]. *)
Definition needsPlatformCheck : bool :=
  negb (argIs w 2 "report") && negb (argIs w 2 "--version")
  && negb (argIs w 2 "--help") && negb (argIs w 2 "reset").

(** The guard of the branch that runs the command without looking for
    an installation. *)
Definition isExemptCommand : bool :=
  argIs w 2 "new" || argIs w 2 "_migrate" || argIs w 2 "init"
  || (argIs w 2 "graph" && negb (bool_decide (is_Some (findWorkspaceRoot w)))).

(** [try { localNeoai = workspace && resolveNeoai(workspace) }
     catch { localNeoai = null }] *)
Definition resolveLocalNeoai (workspace : option Workspace)
  : M (option string) :=
  tryCatch
    match workspace with
    | Some ws => path ← resolveNeoai (Some ws); mret (Some path)
    | None => mret None
    end
    (λ _, mret None).

(** The end of [main], from the [--version] test on: where the command
    runs. *)
Definition route (workspace : option Workspace)
    (localNeoai : option string) (isLocalInstall : bool)
    (LOCAL_NEOAI_VERSION GLOBAL_NEOAI_VERSION : option string) : M unit :=
  (if argIs w 2 "--version"
   then handleNeoaiVersionCommand LOCAL_NEOAI_VERSION GLOBAL_NEOAI_VERSION
   else mret ());;
  (if negb (bool_decide (is_Some workspace))
   then handleNoWorkspace GLOBAL_NEOAI_VERSION else mret ());;
  (if negb (Js.truthy localNeoai)
      && negb (isNeoaiCloudCommand (argv w !! 2))
   then handleMissingLocalInstallation (dir <$> workspace)
   else mret ());;
  (* this file is already in the local workspace *)
  if isNeoaiCloudCommand (argv w !! 2) then
    (* neoai-cloud commands can run without local Neoai installation *)
    setEnv "NEOAI_DAEMON" "false";;
    commandsArgv w
  else if isLocalInstall then
    initLocal w workspace
  else if Js.truthy localNeoai then
    (* Neoai is being run from globally installed CLI - hand off to the local *)
    warnIfUsingOutdatedGlobalInstall GLOBAL_NEOAI_VERSION
                                     LOCAL_NEOAI_VERSION;;
    if Js.includes ".neoai" (Js.theString localNeoai)
    then requireModule w Require (neoaiWrapperPath (Js.theString localNeoai))
    else requireModule w Require (Js.theString localNeoai)
  else mret ().

Definition main : M unit :=
  (if needsPlatformCheck then assertSupportedPlatform w else mret ());;
  let workspace := findWorkspaceRoot w in
  match workspace with
  | Some ws => emit (LoadRootEnvFiles (dir ws))
  | None => mret ()
  end;;
  (* new is a special case because there is no local workspace to load *)
  if isExemptCommand then
    setEnv "NEOAI_DAEMON" "false";;
    commandsArgv w
  else
    match workspace with
    | Some ws =>
        if negb (daemonEnabled w)
        then emit (SetupWorkspaceContext (dir ws)) else mret ()
    | None => mret ()
    end;;
    (* Make sure that a local copy of Neoai exists in workspace *)
    localNeoai ← resolveLocalNeoai workspace;
    selfNeoai ← resolveNeoai None;
    let isLocalInstall := bool_decide (localNeoai = Some selfNeoai) in
    '(LOCAL_NEOAI_VERSION, GLOBAL_NEOAI_VERSION) ←
      determineNeoaiVersions localNeoai workspace isLocalInstall;
    route workspace localNeoai isLocalInstall
          LOCAL_NEOAI_VERSION GLOBAL_NEOAI_VERSION.

(** [main().catch((error) => { console.error(error); process.exit(1); })] *)
Definition run : M unit :=
  tryCatch main (λ error, print ConsoleError (ErrorValue error);;
                          processExit 1).

End WithWorld.

(** *** The terminal states of the specification, as seen in a trace

    [InProcess] is entered at [commandsObject.argv] or at the first action
    of [initLocal]; [Delegate] at the [require] of the hand-off;
    [ExitNoWorkspace], [ExitMissingLocal] and [ExitError] at the first
    line their handler prints. *)
Inductive Terminal :=
| InProcess | Delegate | ExitNoWorkspace | ExitMissingLocal | ExitError.

Definition enters (t : Terminal) (ev : Event) : bool :=
  match t, ev with
  | InProcess, CommandsArgv => true
  | InProcess, SetEnv name _ => String.eqb name "NEOAI_CLI_SET"
  | Delegate, Require _ => true
  | ExitNoWorkspace, Print OutputLog NotInWorkspace => true
  | ExitMissingLocal, Print OutputError (MissingLocalInstallation _) => true
  | ExitError, Print ConsoleError (ErrorValue _) => true
  | _, _ => false
  end.

Definition reaches (t : Terminal) (tr : list Event) : bool :=
  existsb (enters t) tr.



(** *** The values [main] computes before it routes the command *)

Section Prelude.
Context (w : World).

(** [workspace ? workspace.dir : globalsRoot] *)
Definition searchRoot (workspace : option Workspace) : string :=
  match workspace with
  | Some ws => dir ws
  | None => globalsRoot w
  end.

(** The path [resolveNeoai] returns, if it returns. *)
Definition resolved (workspace : option Workspace) : option string :=
  match resolution w "neoai/bin/neoai.js"
          (getNeoaiInstallationPath w (searchRoot workspace)) with
  | Some path => Some path
  | None => resolution w "neoai/bin/neoai.js" (searchRoot workspace)
  end.

(** The value of [localNeoai]. *)
Definition localNeoaiOf : option string :=
  match findWorkspaceRoot w with
  | Some ws => resolved (Some ws)
  | None => None
  end.

Definition isLocalInstallOf (selfNeoai : string) : bool :=
  bool_decide (localNeoaiOf = Some selfNeoai).

Definition localVersionOf : option string :=
  if Js.truthy localNeoaiOf
  then getLocalNeoaiVersion w (findWorkspaceRoot w) else None.

Definition globalVersionOf (selfNeoai : string) : option string :=
  if isLocalInstallOf selfNeoai then None else Some (packageVersion w).

(** The platform check is skipped or passes. *)
Definition passesPlatformCheck : bool :=
  negb (needsPlatformCheck w) || platformSupported w.

(** What a command that is not exempt has done when it is routed. *)
Definition preludeEvents : list Event :=
  (if needsPlatformCheck w then [AssertPlatform] else [])
  ++ match findWorkspaceRoot w with
     | Some ws =>
         LoadRootEnvFiles (dir ws)
         :: (if daemonEnabled w then []
             else [SetupWorkspaceContext (dir ws)])
     | None => []
     end.

Definition afterPrelude (selfNeoai : string) (st : State) : State :=
  {| env := env st; cache := cache st;
     globalThisVersion :=
       match globalThisVersion st with
       | Some old => Some old
       | None => globalVersionOf selfNeoai
       end;
     trace := trace st ++ preludeEvents |}.
End Prelude.

(** What the version check can do: run the two registry commands and
    print the warning. *)
Definition isVersionCheckEvent (ev : Event) : bool :=
  match ev with
  | ExecSync _ => true
  | Print OutputWarn (TimeToUpdate _) => true
  | _ => false
  end.

(** What [initLocal] can do. *)
Definition isInitLocalEvent (ev : Event) : bool :=
  match ev with
  | SetEnv name value =>
      String.eqb name "NEOAI_CLI_SET" && String.eqb value "true"
  | Print _ _ | EnsureConsoleInstalled | Parse _ | ShowHelp
  | RequireAngularCli _ | ProcessExit _ => true
  | _ => false
  end.

End Dispatcher.

(** ** bin/post-install.ts

    The script arms a 30 second timer, starts an asynchronous function and
    registers two process-wide handlers.  The asynchronous function runs
    synchronously up to its only [await]; from there on the event loop
    delivers whichever comes first of the timer, the settlement of the
    awaited promise, and an error raised elsewhere in the process.  Times
    are milliseconds since the start of the script. *)

Module PostInstall.
Import Effects.

(** How the promise of [verifyOrUpdateNeoaiCloudClient] settles. *)
Inductive Settlement :=
| Fulfils (after : N)
| Rejects (after : N) (e : Error)
| NeverSettles.

Record World := mkWorld {
  resolveMain : option string;     (* require.resolve('neoai', {paths: [workspaceRoot]}) *)
  resolveThis : option string;     (* require.resolve('neoai') *)
  neoaiJsonExists : bool;          (* fileExists(join(workspaceRoot, 'neoai.json')) *)
  platformSupported : bool;        (* does assertSupportedPlatform() return? *)
  cloudUsed : option bool;         (* isNeoaiCloudUsed(readNeoaiJson()); None: it throws *)
  cloudOptions : bool;             (* does getCloudOptions() return? *)
  verifyOrUpdate : Settlement;
  strayError : option (N * Error)
    (* an uncaught exception or unhandled rejection raised outside the
       guarded work, and when *)
}.

Definition watchdogBudget : N := 30000.

Inductive Verbose :=
| TimedOut                         (* Neoai post-install timed out. *)
| Caught (e : Error)               (* logger.verbose(e) *)
| Took (ms : N).                   (* Neoai postinstall steps took <ms>ms *)

Inductive Cause := Watchdog | WorkDone | TopLevelHandler.

Record Outcome := mkOutcome {
  cause : Cause;
  exitCode : Z;
  exitAt : N;
  timerCleared : bool;
  log : list Verbose
}.

Definition isMainNeoaiPackage (w : World) : Error + bool :=
  match resolveMain w with
  | Some mainNeoaiPath =>
      match resolveThis w with
      | Some thisNeoaiPath => inr (String.eqb mainNeoaiPath thisNeoaiPath)
      | None => inl (ModuleNotFound "neoai" "")
      end
  | None => inl (ModuleNotFound "neoai" "workspaceRoot")
  end.

(** The synchronous part of the [try] block: it ends (possibly with a
    caught error) or reaches the [await]. *)
Inductive TryBlock :=
| Ends (caught : option Error)
| Awaits.

Definition tryBlock (w : World) : TryBlock :=
  match isMainNeoaiPackage w with
  | inl e => Ends (Some e)
  | inr false => Ends None
  | inr true =>
      if negb (neoaiJsonExists w) then Ends None
      else if negb (platformSupported w) then Ends (Some UnsupportedPlatform)
      else match cloudUsed w with
           | None => Ends (Some (CommandFailed "readNeoaiJson"))
           | Some false => Ends None
           | Some true =>
               if cloudOptions w then Awaits
               else Ends (Some (CommandFailed "getCloudOptions"))
           end
  end.

(** The [catch] and [finally] blocks: log, [clearTimeout], [process.exit(0)]. *)
Definition finish (caught : option Error) (now : N) : Outcome :=
  {| cause := WorkDone; exitCode := 0; exitAt := now; timerCleared := true;
     log := match caught with Some e => [Caught e] | None => [] end
            ++ [Took now] |}.

(** The callback of [setTimeout(..., 30_000)]. *)
Definition postinstallTimeout : Outcome :=
  {| cause := Watchdog; exitCode := 0; exitAt := watchdogBudget;
     timerCleared := false; log := [TimedOut] |}.

(** The handlers of [uncaughtException] and [unhandledRejection]. *)
Definition topLevelHandler (e : Error) (now : N) : Outcome :=
  {| cause := TopLevelHandler; exitCode := 0; exitAt := now;
     timerCleared := false; log := [Caught e] |}.

(** When the awaited promise settles, and with which error. *)
Definition settlement (w : World) : option (N * option Error) :=
  match verifyOrUpdate w with
  | Fulfils t => Some (t, None)
  | Rejects t e => Some (t, Some e)
  | NeverSettles => None
  end.

(** What the event loop holds once the function awaits, with due times. *)
Definition pending (w : World) : list (N * Outcome) :=
  [(watchdogBudget, postinstallTimeout)]
  ++ match settlement w with
     | Some (t, caught) => [(t, finish caught t)]
     | None => []
     end
  ++ match strayError w with
     | Some (t, e) => [(t, topLevelHandler e t)]
     | None => []
     end.

Definition earliest (l : list (N * Outcome)) : N :=
  foldr (λ p t, N.min p.1 t) watchdogBudget l.

(** Every way the process can end: the order of two events due at the
    same instant is not fixed. *)
Definition outcomes (w : World) : list Outcome :=
  match tryBlock w with
  | Ends caught => [finish caught 0]
  | Awaits =>
      snd <$> filter (λ p, p.1 = earliest (pending w)) (pending w)
  end.

End PostInstall.

(** ** Concrete worlds for the examples *)

Module Sample.
Import Effects Collaborators.

(** A stand-in for semver's [major] on plain versions: the number written
    before the first dot. *)
Fixpoint digitsValue (acc : option N) (s : string) : option N :=
  match s with
  | String c s' =>
      match Ascii.is_nat c with
      | Some d => digitsValue (Some (10 * default 0 acc + N.of_nat d)%N) s'
      | None => if bool_decide (Ascii.nat_of_ascii c = 46) then acc else None
      end
  | EmptyString => None
  end.

Definition sampleMajor (version : string) : option N :=
  digitsValue None version.

Definition globalPath : string := "/usr/lib/node_modules/neoai/bin/neoai.js".
Definition localPath : string := "/ws/node_modules/neoai/bin/neoai.js".
Definition managedPath : string :=
  "/ws/.neoai/installation/node_modules/neoai/bin/neoai.js".

Definition nothingResolves : string → string → option string :=
  λ _ _, None.

(** Only the globally installed copy is found. *)
Definition globalOnly : string → string → option string :=
  λ _ from, if String.eqb from "/usr/lib" then Some globalPath else None.

(** A second copy is installed at the root of the workspace [/ws]. *)
Definition globalAndLocal : string → string → option string :=
  λ _ from,
    if String.eqb from "/usr/lib" then Some globalPath
    else if String.eqb from "/ws" then Some localPath
    else None.

(** The second copy lives in the managed installation of [/ws]. *)
Definition globalAndManaged : string → string → option string :=
  λ _ from,
    if String.eqb from "/usr/lib" then Some globalPath
    else if String.eqb from "/ws/.neoai/installation" then Some managedPath
    else None.

(** The running copy is the copy of the workspace [/ws]. *)
Definition localOnly : string → string → option string :=
  λ _ _, Some localPath.

Definition offline : nat → string → option string := λ _ _, None.

Definition registry (version : string) : nat → string → option string :=
  λ _ command,
    if String.eqb command "npm view neoai@latest version"
    then Some (version +:+ String (Ascii.ascii_of_nat 10) EmptyString)
    else None.

Definition ws : Workspace := {| dir := "/ws"; type := "neoai" |}.

(** Global version 18.0.0; the local package, where there is one, is at
    19.1.0. *)
Definition world (args : list string) (workspace : option Workspace)
    (resolve : string → string → option string)
    (exec : nat → string → option string) : World :=
  {| argv := ["node"; "neoai"] ++ args;
     platformSupported := true;
     findWorkspaceRoot := workspace;
     daemonEnabled := false;
     globalsRoot := "/usr/lib";
     getNeoaiInstallationPath := λ root, root +:+ "/.neoai/installation";
     resolution := resolve;
     packageVersion := "18.0.0";
     localPackageVersion := λ _, Some "19.1.0";
     semverMajor := sampleMajor;
     execSyncOutput := exec;
     commandHandlers := ["build"; "test"; "run"; "graph"];
     argvFailure := None;
     parseFailure := λ _, None;
     requireFailure := λ _, None |}.

(** [neoai build] in the workspace [/ws], run from the global copy. *)
Definition buildFromGlobal : World :=
  world ["build"] (Some ws) globalAndLocal offline.

(** [neoai build] outside of any workspace, with a registry in reach or
    without. *)
Definition buildOutside (exec : nat → string → option string) : World :=
  world ["build"] None globalOnly exec.

(** The post-install step of the primary copy in a workspace that uses the
    remote service: the update settles as [work] says. *)
Definition installing (work : PostInstall.Settlement)
    (stray : option (N * Error)) : PostInstall.World :=
  {| PostInstall.resolveMain := Some "/ws/node_modules/neoai/index.js";
     PostInstall.resolveThis := Some "/ws/node_modules/neoai/index.js";
     PostInstall.neoaiJsonExists := true;
     PostInstall.platformSupported := true;
     PostInstall.cloudUsed := Some true;
     PostInstall.cloudOptions := true;
     PostInstall.verifyOrUpdate := work;
     PostInstall.strayError := stray |}.

End Sample.

(** ** Classes of actions and readings of the command line *)

Module Observations.
Import Effects Collaborators InitLocal Dispatcher.

(** Does [--help] come before every [--] in a list of tokens? *)
Fixpoint helpFirst (tokens : list string) : bool :=
  match tokens with
  | [] => false
  | a :: rest =>
      if String.eqb a "--help" then true
      else if String.eqb a "--" then false
      else helpFirst rest
  end.

(** The test [help > -1 && (split === -1 || split > help)] of [initLocal]. *)
Definition showsHelp (newArgs : list string) : bool :=
  match indexOf "--help" newArgs, indexOf "--" newArgs with
  | Some _, None => true
  | Some h, Some s => h <? s
  | None, _ => false
  end.

(** What the [try] block of [initLocal] and its [catch] can do. *)
Definition isLocalAction (ev : Event) : bool :=
  match ev with
  | Print _ _ | EnsureConsoleInstalled | Parse _ | ShowHelp
  | RequireAngularCli _ => true
  | ProcessExit code => bool_decide (code = 1%Z)
  | _ => false
  end.

(** The actions of the Angular CLI fallback. *)
Definition isAngularAction (ev : Event) : bool :=
  match ev with
  | RequireAngularCli _ => true
  | Print ConsoleWarn AngularDeprecated => true
  | Print ConsoleLog (NgUpdateGuidance _) => true
  | Print ConsoleLog NgCompletionUnsupported => true
  | Print ConsoleLog NgCacheUnsupported => true
  | Print ConsoleError (AngularCliNotFound _) => true
  | _ => false
  end.

(** The calls into the command engine. *)
Definition isEngineCall (ev : Event) : bool :=
  match ev with
  | CommandsArgv | Parse _ | ShowHelp | EnsureConsoleInstalled => true
  | _ => false
  end.

Section WithWorld.
Context (w : World).

(** The commands [handleAngularCLIFallbacks] answers itself, without the
    Angular CLI. *)
Definition answeredWithoutAngular (e : gmap string string) : bool :=
  (argIs w 2 "update" && negb (bool_decide (e !! "FORCE_NG_UPDATE" = Some "true")))
  || argIs w 2 "completion" || argIs w 2 "cache".

(** Everything [main] and what it calls can do, in this world. *)
Definition isDispatcherAction (ev : Event) : bool :=
  match ev with
  | AssertPlatform => needsPlatformCheck w
  | LoadRootEnvFiles d | SetupWorkspaceContext d =>
      bool_decide (dir <$> findWorkspaceRoot w = Some d)
  | SetEnv name value =>
      (String.eqb name "NEOAI_DAEMON" && String.eqb value "false")
      || (String.eqb name "NEOAI_CLI_SET" && String.eqb value "true")
  | ExecSync command =>
      String.eqb command "npm view neoai@latest version"
      || String.eqb command "pnpm view neoai@latest version"
  | ProcessExit code =>
      bool_decide (code = 1%Z)
      || (bool_decide (code = 0%Z) && argIs w 2 "--version")
  | _ => true
  end.

End WithWorld.

(** The child processes of a trace, in order. *)
Definition childProcesses (tr : list Event) : list string :=
  omap (λ ev, match ev with ExecSync c => Some c | _ => None end) tr.

End Observations.

(** * Properties *)

(** ** ArgumentNormalizer *)

Module NormalizerFacts.
Import Normalizer.

(** *** Unfolding equations of the two loops *)

Lemma collect_eq args i items :
  collect args i items =
  match args !! i with
  | None => (i, items)
  | Some a => if Js.startsWith "-" a then (i, items)
              else collect args (S i) (items ++ [a])
  end.
Proof. funelim (collect args i items); rewrite e; reflexivity. Qed.

Lemma loop_eq args i newArgs :
  loop args i newArgs =
  match args !! i with
  | None => newArgs
  | Some a =>
      if String.eqb a "--" then newArgs ++ drop i args
      else if isCollectorFlag a then
        loop args (collect args (S i) []).1
             (newArgs ++ [a] ++ [Js.join "," (collect args (S i) []).2])
      else loop args (S i) (newArgs ++ [a])
  end.
Proof. funelim (loop args i newArgs); rewrite e; reflexivity. Qed.

(** *** The loops only look at the tokens from the current index on *)

Lemma collect_app (front l : list string) k items :
  collect (front ++ l) (length front + k) items =
  (length front + (collect l k items).1, (collect l k items).2).
Proof.
  remember (length l - k) as m eqn:Hm.
  revert k items Hm; induction m as [m IH] using lt_wf_ind; intros k items Hm.
  rewrite (collect_eq (front ++ l)), (collect_eq l).
  rewrite lookup_app_r by lia.
  replace (length front + k - length front) with k by lia.
  destruct (l !! k) as [a|] eqn:Hk; [|reflexivity].
  destruct (Js.startsWith "-" a); [reflexivity|].
  apply lookup_lt_Some in Hk.
  replace (S (length front + k)) with (length front + S k) by lia.
  apply (IH (length l - S k)); lia.
Qed.

Lemma collect_items (items rest acc : list string) :
  Forall notDash items → stopsCollect rest →
  collect (items ++ rest) 0 acc = (length items, acc ++ items).
Proof.
  intros Hitems Hrest. revert acc.
  induction Hitems as [|a items Ha _ IH]; intros acc.
  - rewrite collect_eq. simpl. rewrite app_nil_r.
    destruct rest as [|t rest]; [reflexivity|].
    simpl. rewrite (Hrest t eq_refl). reflexivity.
  - rewrite collect_eq. simpl. rewrite Ha.
    pose proof (collect_app [a] (items ++ rest) 0 (acc ++ [a])) as E.
    simpl in E. rewrite E, IH. simpl. rewrite <- app_assoc. reflexivity.
Qed.

Lemma loop_app (front l : list string) k newArgs :
  loop (front ++ l) (length front + k) newArgs = newArgs ++ loop l k [].
Proof.
  remember (length l - k) as m eqn:Hm.
  revert front k newArgs Hm.
  induction m as [m IH] using lt_wf_ind; intros front k newArgs Hm.
  rewrite (loop_eq (front ++ l)), (loop_eq l).
  rewrite lookup_app_r by lia.
  replace (length front + k - length front) with k by lia.
  destruct (l !! k) as [a|] eqn:Hk; [|by rewrite app_nil_r].
  apply lookup_lt_Some in Hk.
  destruct (String.eqb a "--").
  { by rewrite drop_app_add. }
  destruct (isCollectorFlag a).
  - replace (S (length front + k)) with (length front + S k) by lia.
    rewrite collect_app. simpl.
    pose proof (collect_index_ge l (S k) []) as Hge.
    set (j := (collect l (S k) []).1) in *.
    set (v := Js.join "," (collect l (S k) []).2).
    assert (length l - j < m) as Hlt by lia.
    rewrite (IH _ Hlt front j (newArgs ++ a :: [v]) eq_refl).
    pose proof (IH _ Hlt [] j (a :: [v]) eq_refl) as E. simpl in E.
    rewrite E. by rewrite <- app_assoc.
  - replace (S (length front + k)) with (length front + S k) by lia.
    assert (length l - S k < m) as Hlt by lia.
    rewrite (IH _ Hlt front (S k) (newArgs ++ [a]) eq_refl).
    pose proof (IH _ Hlt [] (S k) [a] eq_refl) as E. simpl in E.
    cbn [app]. rewrite E. by rewrite <- app_assoc.
Qed.

Lemma rewrite_scan a0 a1 command l :
  rewriteTargetsAndProjects (a0 :: a1 :: command :: l)
  = Some (command :: scan l).
Proof.
  unfold rewriteTargetsAndProjects, scan. simpl.
  exact (f_equal Some (loop_app [a0; a1; command] l 0 [command])).
Qed.

Lemma collector_not_separator a :
  isCollectorFlag a = true → String.eqb a "--" = false.
Proof.
  intros H. destruct (String.eqb_spec a "--") as [->|]; [|reflexivity].
  discriminate H.
Qed.

Lemma collector_dash a : isCollectorFlag a = true → Js.startsWith "-" a = true.
Proof.
  unfold isCollectorFlag. rewrite !orb_true_iff, !String.eqb_eq.
  intros H. repeat (destruct H as [H| ->]; [|reflexivity]). by subst.
Qed.

Lemma scan_nil : scan [] = [].
Proof. reflexivity. Qed.

Lemma scan_separator rest : scan ("--" :: rest) = "--" :: rest.
Proof. unfold scan. rewrite loop_eq. reflexivity. Qed.

Lemma scan_collector flag items rest :
  isCollectorFlag flag = true → Forall notDash items → stopsCollect rest →
  scan (flag :: items ++ rest) = flag :: Js.join "," items :: scan rest.
Proof.
  intros Hflag Hitems Hrest. unfold scan. rewrite loop_eq. cbn [lookup list_lookup].
  rewrite (collector_not_separator _ Hflag), Hflag.
  pose proof (collect_app [flag] (items ++ rest) 0 []) as E.
  cbn [length Nat.add app] in E. rewrite E, collect_items by done.
  cbn [fst snd app].
  pose proof (loop_app (flag :: items) rest 0 [flag; Js.join "," items]) as L.
  rewrite Nat.add_0_r in L. cbn [length] in L.
  rewrite <- app_comm_cons in L. rewrite L. reflexivity.
Qed.

Lemma scan_other a rest :
  String.eqb a "--" = false → isCollectorFlag a = false →
  scan (a :: rest) = a :: scan rest.
Proof.
  intros Hsep Hflag. unfold scan. rewrite loop_eq. cbn [lookup list_lookup].
  rewrite Hsep, Hflag.
  exact (loop_app [a] rest 0 [a]).
Qed.

(** Every list splits into its longest prefix of tokens without a leading
    dash and a remainder that stops the inner loop. *)
Lemma split_items (l : list string) :
  ∃ items rest, l = items ++ rest ∧ Forall notDash items ∧ stopsCollect rest
                ∧ length rest ≤ length l.
Proof.
  induction l as [|a l (items & rest & -> & Hi & Hr & Hlen)].
  - exists [], []. repeat split; [constructor|by intros ?|done].
  - destruct (Js.startsWith "-" a) eqn:Ha.
    + exists [], (a :: items ++ rest). repeat split; [constructor| |done].
      intros t [= <-]. done.
    + exists (a :: items), rest. repeat split; [by constructor|done|].
      simpl. rewrite length_app in *. lia.
Qed.

(** Scanning is compositional at every token that starts with a dash, as
    long as no separator has been met before it. *)
Lemma scan_app (before : list string) t rest :
  "--" ∉ before → Js.startsWith "-" t = true →
  scan (before ++ t :: rest) = scan before ++ scan (t :: rest).
Proof.
  remember (length before) as n eqn:Hn. revert before Hn.
  induction n as [n IH] using lt_wf_ind; intros before Hn Hsep Ht.
  destruct before as [|a before]; [reflexivity|].
  apply not_elem_of_cons in Hsep as [Ha Hsep].
  assert (String.eqb a "--" = false) as Ha' by (by apply String.eqb_neq).
  destruct (isCollectorFlag a) eqn:Hflag.
  - destruct (split_items before) as (items & more & -> & Hi & Hm & Hlen).
    rewrite <- app_comm_cons, <- app_assoc.
    rewrite scan_collector; [|done..|].
    2:{ intros u. destruct more; simpl; [intros [= <-]; done|apply Hm]. }
    rewrite (scan_collector a items more) by done.
    rewrite (IH (length more)); [done| |done| |done].
    + simpl in Hn. lia.
    + intros Hin. apply Hsep. apply elem_of_app. by right.
  - rewrite <- app_comm_cons, !scan_other by done.
    rewrite (IH (length before)); [done| |done..].
    simpl in Hn. lia.
Qed.


(** The three examples of the specification. *)
Example rewrite_collects :
  rewriteTargetsAndProjects
    ["node"; "cli"; "build"; "-p"; "a"; "b"; "--verbose"]
  = Some ["build"; "-p"; "a,b"; "--verbose"].
Proof. reflexivity. Qed.

Example rewrite_stops_at_separator :
  rewriteTargetsAndProjects ["node"; "cli"; "build"; "--"; "-p"; "a"]
  = Some ["build"; "--"; "-p"; "a"].
Proof. reflexivity. Qed.

Example rewrite_empty_collection :
  rewriteTargetsAndProjects ["node"; "cli"; "test"; "-t"; "x"; "-p"]
  = Some ["test"; "-t"; "x"; "-p"; ""].
Proof. reflexivity. Qed.

(** The function is total on arrays that hold a command token. *)
Lemma rewrite_total (args : list string) :
  3 ≤ length args → is_Some (rewriteTargetsAndProjects args).
Proof.
  intros Hlen. unfold rewriteTargetsAndProjects.
  destruct (lookup_lt_is_Some_2 args 2 ltac:(lia)) as [c ->]. by eexists.
Qed.

(** C2.  Let the first [--] after the command token stand at the end of
    [before]: the output is the output for the tokens [before], then [--]
    and all the tokens [after] it, unchanged, whatever they are. *)
Theorem separator_stops_rewriting
    (node script command : string) (before after : list string) :
  "--" ∉ before →
  ∃ out,
    rewriteTargetsAndProjects (node :: script :: command :: before) = Some out
    ∧ rewriteTargetsAndProjects
        (node :: script :: command :: before ++ "--" :: after)
      = Some (out ++ "--" :: after).
Proof.
  intros Hsep. exists (command :: scan before).
  rewrite !rewrite_scan, scan_app, scan_separator by done. done.
Qed.

Lemma separator_stops_rewriting_witness :
  ∃ out,
    rewriteTargetsAndProjects ["node"; "cli"; "build"; "-p"; "a"; "b"]
    = Some out
    ∧ rewriteTargetsAndProjects
        (["node"; "cli"; "build"; "-p"; "a"; "b"] ++ ["--"; "-t"; "x"; "y"])
      = Some (out ++ ["--"; "-t"; "x"; "y"]).
Proof.
  apply (separator_stops_rewriting "node" "cli" "build" ["-p"; "a"; "b"]
           ["-t"; "x"; "y"]).
  intros H. repeat (apply elem_of_cons in H as [H|H]; [discriminate H|]).
  by apply elem_of_nil in H.
Defined.

(** C3.  A collector flag met before any [--] is emitted unchanged and is
    followed by one token: the tokens [items] that follow it up to the next
    token with a leading dash (or the end), joined with commas; the empty
    string when there is none.  The tokens before and after are rewritten
    as they are on their own. *)
Theorem collector_joins_items
    (node script command flag : string) (before items after : list string) :
  "--" ∉ before →
  isCollectorFlag flag = true →
  Forall notDash items →
  stopsCollect after →
  ∃ outBefore outAfter,
    rewriteTargetsAndProjects (node :: script :: command :: before)
    = Some (command :: outBefore)
    ∧ rewriteTargetsAndProjects (node :: script :: command :: after)
      = Some (command :: outAfter)
    ∧ rewriteTargetsAndProjects
        (node :: script :: command :: before ++ flag :: items ++ after)
      = Some (command :: outBefore
                ++ flag :: Js.join "," items :: outAfter)
    ∧ Js.join "," [] = "".
Proof.
  intros Hsep Hflag Hitems Hafter.
  exists (scan before), (scan after).
  rewrite !rewrite_scan, scan_app, scan_collector
    by auto using collector_dash.
  done.
Qed.

Lemma collector_joins_items_witness :
  ∃ outBefore outAfter,
    rewriteTargetsAndProjects ["node"; "cli"; "test"; "-t"; "x"]
    = Some ("test" :: outBefore)
    ∧ rewriteTargetsAndProjects ["node"; "cli"; "test"; "--verbose"]
      = Some ("test" :: outAfter)
    ∧ rewriteTargetsAndProjects
        (["node"; "cli"; "test"; "-t"; "x"]
           ++ "--projects" :: ["a"; "b"; "c"] ++ ["--verbose"])
      = Some ("test" :: outBefore
                ++ "--projects" :: Js.join "," ["a"; "b"; "c"] :: outAfter)
    ∧ Js.join "," [] = "".
Proof.
  apply (collector_joins_items "node" "cli" "test" "--projects"
           ["-t"; "x"] ["a"; "b"; "c"] ["--verbose"]).
  - intros H. repeat (apply elem_of_cons in H as [H|H]; [discriminate H|]).
    by apply elem_of_nil in H.
  - reflexivity.
  - repeat constructor.
  - intros t [= <-]. reflexivity.
Defined.

End NormalizerFacts.

(** ** Version comparison and the memoised lookup *)

Module VersionFacts.
Import Effects Collaborators Dispatcher.

(** One step of symbolic execution of the effect monad. *)
Ltac mrun :=
  cbv beta iota zeta delta
    [mbind M_bind mret M_ret throw tryCatch emit print getEnv setEnv
     getCache setCache initGlobalThisVersion processExit major
     negb andb orb].

Lemma warn_suppressed_by_marker w st g l :
  Js.truthy (env st !! "NEOAI_CLI_SET") = true →
  warnIfUsingOutdatedGlobalInstall w g l st = (Ret (), st).
Proof.
  intros H. unfold warnIfUsingOutdatedGlobalInstall. mrun. by rewrite H.
Qed.

Lemma warn_without_global w st g l :
  Js.truthy g = false →
  warnIfUsingOutdatedGlobalInstall w g l st = (Ret (), st).
Proof.
  intros H.
  unfold warnIfUsingOutdatedGlobalInstall, checkOutdatedGlobalInstallation.
  mrun. rewrite H. by destruct (Js.truthy (env st !! "NEOAI_CLI_SET")).
Qed.

Lemma warn_against_local w st g l mg ml :
  Js.truthy (env st !! "NEOAI_CLI_SET") = false →
  Js.truthy g = true → Js.truthy l = true →
  semverMajor w (Js.theString g) = Some mg →
  semverMajor w (Js.theString l) = Some ml →
  warnIfUsingOutdatedGlobalInstall w g l st
  = (Ret (),
     if (mg <? ml)%N
     then record st (Print OutputWarn
                       (TimeToUpdate (Some (Js.theString l, g))))
     else st).
Proof.
  intros Hm Hg Hl Hmg Hml.
  unfold warnIfUsingOutdatedGlobalInstall, checkOutdatedGlobalInstallation.
  mrun. rewrite Hm, Hg, Hl. mrun. rewrite Hmg, Hml.
  by destruct (mg <? ml)%N.
Qed.


(** C4, as the code has it.  The warning of [warnIfUsingOutdatedGlobalInstall]
    (1) is not emitted when no global version is known; (2) with a local
    version known (and the marker absent or empty, the global version
    known), is emitted exactly when the major of the global version is
    below the major of the local one; (3) is not emitted, whatever the
    versions, when NEOAI_CLI_SET holds a non-empty value.  In (1) and (3)
    nothing at all happens: the state is unchanged. *)
Theorem outdated_warning_rules
    (w : World) (st : State) (g l : option string) :
  (Js.truthy g = false →
   warnIfUsingOutdatedGlobalInstall w g l st = (Ret (), st))
  ∧ (∀ mg ml,
       Js.truthy (env st !! "NEOAI_CLI_SET") = false →
       Js.truthy g = true → Js.truthy l = true →
       semverMajor w (Js.theString g) = Some mg →
       semverMajor w (Js.theString l) = Some ml →
       warnIfUsingOutdatedGlobalInstall w g l st
       = (Ret (),
          if (mg <? ml)%N
          then record st (Print OutputWarn
                            (TimeToUpdate (Some (Js.theString l, g))))
          else st))
  ∧ (Js.truthy (env st !! "NEOAI_CLI_SET") = true →
     warnIfUsingOutdatedGlobalInstall w g l st = (Ret (), st)).
Proof.
  split; [apply warn_without_global|].
  split; [intros mg ml; apply warn_against_local|].
  apply warn_suppressed_by_marker.
Qed.

(** Global 18, local 19: the warning; equal majors: none; marker set to
    [true]: none. *)
Lemma outdated_warning_rules_witness :
  warnIfUsingOutdatedGlobalInstall
    Sample.buildFromGlobal
    (Some "18.0.0") (Some "19.1.0") (initialState ∅)
  = (Ret (),
     record (initialState ∅)
       (Print OutputWarn (TimeToUpdate (Some ("19.1.0", Some "18.0.0")))))
  ∧ warnIfUsingOutdatedGlobalInstall
      Sample.buildFromGlobal
      (Some "19.0.0") (Some "19.1.0") (initialState ∅)
    = (Ret (), initialState ∅)
  ∧ warnIfUsingOutdatedGlobalInstall
      Sample.buildFromGlobal
      (Some "18.0.0") (Some "19.1.0")
      (initialState {["NEOAI_CLI_SET" := "true"]})
    = (Ret (), initialState {["NEOAI_CLI_SET" := "true"]})
  ∧ warnIfUsingOutdatedGlobalInstall
      Sample.buildFromGlobal
      None (Some "19.1.0") (initialState ∅)
    = (Ret (), initialState ∅).
Proof.
  split; [|split; [|split]].
  - exact (proj1 (proj2 (outdated_warning_rules Sample.buildFromGlobal (initialState ∅)
                           (Some "18.0.0") (Some "19.1.0")))
             18%N 19%N eq_refl eq_refl eq_refl eq_refl eq_refl).
  - exact (proj1 (proj2 (outdated_warning_rules Sample.buildFromGlobal (initialState ∅)
                           (Some "19.0.0") (Some "19.1.0")))
             19%N 19%N eq_refl eq_refl eq_refl eq_refl eq_refl).
  - exact (proj2 (proj2 (outdated_warning_rules _
                           (initialState {["NEOAI_CLI_SET" := "true"]})
                           (Some "18.0.0") (Some "19.1.0")))
             eq_refl).
  - exact (proj1 (outdated_warning_rules Sample.buildFromGlobal (initialState ∅)
                    None (Some "19.1.0")) eq_refl).
Defined.

(** The marker is set, to the empty string, and the warning is emitted. *)
Lemma empty_marker_does_not_suppress :
  is_Some (env (initialState {["NEOAI_CLI_SET" := ""]}) !! "NEOAI_CLI_SET")
  ∧ warnIfUsingOutdatedGlobalInstall
      Sample.buildFromGlobal
      (Some "18.0.0") (Some "19.1.0")
      (initialState {["NEOAI_CLI_SET" := ""]})
    = (Ret (),
       record (initialState {["NEOAI_CLI_SET" := ""]})
         (Print OutputWarn
            (TimeToUpdate (Some ("19.1.0", Some "18.0.0"))))).
Proof. split; [by eexists|reflexivity]. Qed.

(** *** The memoised lookup *)

Lemma _getLatestVersionOfNeoai_returns w st :
  ∃ v st', _getLatestVersionOfNeoai w st = (Ret v, st')
           ∧ cache st' = cache st.
Proof.
  unfold _getLatestVersionOfNeoai, execSync. mrun.
  destruct (execSyncOutput w (execCount st) _); [by eexists _, _|].
  destruct (execSyncOutput w _ _); by eexists _, _.
Qed.

Lemma getLatestVersionOfNeoai_cached w st :
  Js.truthy (cache st) = true →
  getLatestVersionOfNeoai w st = (Ret (cache st), st).
Proof. intros H. unfold getLatestVersionOfNeoai. mrun. by rewrite H. Qed.

(** C5, as the code has it.  Once a call has returned a non-empty version
    string, that string is in the cache and every later call, in whatever
    state holds that cache, returns it and does nothing else: the lookup
    is not run again. *)
Theorem latest_version_memoised_on_success
    (w : World) (st st' : State) (v : option string) :
  getLatestVersionOfNeoai w st = (Ret v, st') →
  Js.truthy v = true →
  cache st' = v
  ∧ ∀ later, cache later = v →
      getLatestVersionOfNeoai w later = (Ret v, later).
Proof.
  intros Hcall Hv.
  assert (cache st' = v) as Hc.
  { revert Hcall. unfold getLatestVersionOfNeoai. mrun.
    destruct (Js.truthy (cache st)) eqn:Hcache.
    - by intros [= <- <-].
    - destruct (_getLatestVersionOfNeoai_returns w st) as (x & s & -> & _).
      by intros [= <- <-]. }
  split; [done|]. intros later <-.
  by apply getLatestVersionOfNeoai_cached.
Qed.

(** The registry answers 19.2.0: the first call runs [npm view], the second
    call returns the cached string and leaves the state as it is. *)
Lemma latest_version_memoised_on_success_witness :
  trace (getLatestVersionOfNeoai (Sample.buildOutside (Sample.registry "19.2.0"))
           (initialState ∅)).2
  = [ExecSync "npm view neoai@latest version"]
  ∧ cache (getLatestVersionOfNeoai
             (Sample.buildOutside (Sample.registry "19.2.0"))
             (initialState ∅)).2
    = Some "19.2.0"
  ∧ getLatestVersionOfNeoai (Sample.buildOutside (Sample.registry "19.2.0"))
      (getLatestVersionOfNeoai
         (Sample.buildOutside (Sample.registry "19.2.0"))
         (initialState ∅)).2
    = (Ret (Some "19.2.0"),
       (getLatestVersionOfNeoai
          (Sample.buildOutside (Sample.registry "19.2.0"))
          (initialState ∅)).2).
Proof.
  split; [reflexivity|].
  destruct (latest_version_memoised_on_success
              (Sample.buildOutside (Sample.registry "19.2.0"))
              (initialState ∅)
              (getLatestVersionOfNeoai
                 (Sample.buildOutside (Sample.registry "19.2.0"))
                 (initialState ∅)).2
              (Some "19.2.0") eq_refl eq_refl) as [Hcache Hlater].
  split; [exact Hcache|]. apply Hlater. exact Hcache.
Defined.

(** With no registry in reach the first call yields null, and the second
    call runs both commands again. *)
Lemma failed_lookup_is_repeated :
  (getLatestVersionOfNeoai
     (Sample.buildOutside Sample.offline)
     (initialState ∅)).1 = Ret None
  ∧ trace (getLatestVersionOfNeoai
             (Sample.buildOutside Sample.offline)
             (getLatestVersionOfNeoai
                (Sample.buildOutside Sample.offline)
                (initialState ∅)).2).2
    = [ExecSync "npm view neoai@latest version";
       ExecSync "pnpm view neoai@latest version";
       ExecSync "npm view neoai@latest version";
       ExecSync "pnpm view neoai@latest version"].
Proof. split; reflexivity. Qed.

End VersionFacts.

(** ** What a computation adds to the trace *)

Module TraceLogic.
Import Effects Collaborators InitLocal Dispatcher.
Export VersionFacts.

Lemma replayEnv_app evs evs' e :
  replayEnv (evs ++ evs') e = replayEnv evs' (replayEnv evs e).
Proof. apply foldl_app. Qed.

Section Rules.
Context (P : Event → Prop).

(** A computation that leaves the trace and the environment alone and
    does not end the process. *)
Lemma adds_silent {A} (m : M A) :
  (∀ st, trace (m st).2 = trace st ∧ env (m st).2 = env st
         ∧ ∀ c, (m st).1 ≠ Exited c) →
  adds P m.
Proof.
  intros H st. destruct (H st) as (Ht & He & Hc). exists [].
  rewrite app_nil_r. repeat split; [done..|]. intros c Hx. by destruct (Hc c).
Qed.

Lemma adds_ret {A} (a : A) : adds P (mret a).
Proof. by apply adds_silent. Qed.

Lemma adds_throw {A} e : adds P (throw (A:=A) e).
Proof. by apply adds_silent. Qed.

Lemma adds_getEnv k : adds P (getEnv k).
Proof. by apply adds_silent. Qed.

Lemma adds_getCache : adds P getCache.
Proof. by apply adds_silent. Qed.

Lemma adds_setCache v : adds P (setCache v).
Proof. by apply adds_silent. Qed.

Lemma adds_initGlobalThisVersion v : adds P (initGlobalThisVersion v).
Proof. by apply adds_silent. Qed.

Lemma adds_emit ev :
  P ev → (∀ k v, ev ≠ SetEnv k v) → adds P (emit ev).
Proof.
  intros H Hne st. exists [ev]. repeat split; [by repeat constructor| |done].
  unfold replayEnv. simpl. destruct ev; try done. by destruct (Hne name value).
Qed.

Lemma adds_print c m : P (Print c m) → adds P (print c m).
Proof. intros H. by apply adds_emit. Qed.

Lemma adds_setEnv k v : P (SetEnv k v) → adds P (setEnv k v).
Proof. intros H st. exists [SetEnv k v]. by repeat constructor. Qed.

Lemma adds_processExit {A} c :
  P (ProcessExit c) → adds P (processExit (A:=A) c).
Proof.
  intros H st. exists [ProcessExit c].
  repeat split; [by repeat constructor|]. by intros c' [= <-].
Qed.

Lemma adds_bind {A B} (m : M A) (f : A → M B) :
  adds P m → (∀ a, adds P (f a)) → adds P (m ≫= f).
Proof.
  intros Hm Hf st. destruct (Hm st) as (evs & E & HP & Henv & Hx).
  unfold mbind, M_bind.
  destruct (m st) as [[a|e|c] st1]; simpl in E, Henv, Hx;
    [|exists evs; repeat split; try done;
      first [by intros ? [=]|intros ? [= <-]; by apply Hx]..].
  destruct (Hf a st1) as (evs' & E' & HP' & Henv' & Hx').
  exists (evs ++ evs'). rewrite E', E, app_assoc, Henv', Henv, replayEnv_app.
  repeat split; [by apply Forall_app|].
  intros c Hc. rewrite last_app, (Hx' c Hc). done.
Qed.

Lemma adds_tryCatch {A} (m : M A) (h : Error → M A) :
  adds P m → (∀ e, adds P (h e)) → adds P (tryCatch m h).
Proof.
  intros Hm Hh st. destruct (Hm st) as (evs & E & HP & Henv & Hx).
  unfold tryCatch.
  destruct (m st) as [[a|e|c] st1]; simpl in E, Henv, Hx;
    [exists evs; repeat split; try done; by intros ? [=]|
    |exists evs; repeat split; try done; exact Hx].
  destruct (Hh e st1) as (evs' & E' & HP' & Henv' & Hx').
  exists (evs ++ evs'). rewrite E', E, app_assoc, Henv', Henv, replayEnv_app.
  repeat split; [by apply Forall_app|].
  intros c Hc. rewrite last_app, (Hx' c Hc). done.
Qed.
End Rules.

(** Applies the rules down the structure of a computation, splitting on
    the tests it meets. *)
Ltac adds_step :=
  lazymatch goal with
  | |- adds _ (_ ≫= _) => apply adds_bind; [|intros ?]
  | |- adds _ (tryCatch _ _) => apply adds_tryCatch; [|intros ?]
  | |- adds _ (mret _) => apply adds_ret
  | |- adds _ (throw _) => apply adds_throw
  | |- adds _ (emit _) => apply adds_emit
  | |- adds _ (print _ _) => apply adds_print
  | |- adds _ (setEnv _ _) => apply adds_setEnv
  | |- adds _ (processExit _) => apply adds_processExit
  | |- adds _ (getEnv _) => apply adds_getEnv
  | |- adds _ getCache => apply adds_getCache
  | |- adds _ (setCache _) => apply adds_setCache
  | |- adds _ (initGlobalThisVersion _) => apply adds_initGlobalThisVersion
  | |- adds _ (if ?b then _ else _) => destruct b
  | |- adds _ (match ?x with _ => _ end) => destruct x
  end.

Ltac adds_auto := repeat adds_step; try done.

Section WithWorld.
Context (w : World) (P : Event → Prop).

Lemma adds_execSync command :
  P (ExecSync command) → adds P (execSync w command).
Proof.
  intros H st. unfold execSync.
  refine (adds_bind P (emit (ExecSync command)) _ _ _ st);
    [by apply adds_emit|intros []]. adds_auto.
Qed.

Lemma adds_major v : adds P (major w v).
Proof. unfold major. adds_auto. Qed.

Lemma adds_requireResolve request from :
  adds P (requireResolve w request from).
Proof. unfold requireResolve. adds_auto. Qed.

Lemma adds_requireModule site path :
  P (site path) → (∀ k v, site path ≠ SetEnv k v) →
  adds P (requireModule w site path).
Proof. intros H Hne. unfold requireModule. adds_auto. Qed.

Lemma adds_commandsParse args :
  P (Parse args) → adds P (commandsParse w args).
Proof. intros H. unfold commandsParse. adds_auto. Qed.

Lemma adds_commandsArgv : P CommandsArgv → adds P (commandsArgv w).
Proof. intros H. unfold commandsArgv. adds_auto. Qed.

Lemma adds_getLatestVersionOfNeoai :
  (∀ c, P (ExecSync c)) → adds P (getLatestVersionOfNeoai w).
Proof.
  intros H. unfold getLatestVersionOfNeoai, _getLatestVersionOfNeoai.
  adds_auto; by apply adds_execSync.
Qed.

Lemma adds_warnIfUsingOutdatedGlobalInstall g l :
  (∀ ev, isVersionCheckEvent ev = true → P ev) →
  adds P (warnIfUsingOutdatedGlobalInstall w g l).
Proof.
  intros H.
  unfold warnIfUsingOutdatedGlobalInstall, checkOutdatedGlobalInstallation.
  adds_auto; try apply adds_major; try (by apply H).
  all: apply adds_getLatestVersionOfNeoai; intros c; by apply H.
Qed.
End WithWorld.

End TraceLogic.

(** ** The dispatcher *)

Module DispatcherFacts.
Import Effects Collaborators InitLocal Dispatcher.
Export TraceLogic.

Section WithWorld.
Context (w : World).

Lemma resolveNeoai_resolved workspace st :
  resolveNeoai w workspace st
  = match resolved w workspace with
    | Some path => (Ret path, st)
    | None =>
        (Throw (ModuleNotFound "neoai/bin/neoai.js"
                  match workspace with
                  | Some ws => dir ws
                  | None => globalsRoot w
                  end), st)
    end.
Proof.
  unfold resolveNeoai, resolved, requireResolve.
  destruct (resolution w _ (getNeoaiInstallationPath w _)); [done|].
  by destruct (resolution w _ _).
Qed.

Lemma resolveLocalNeoai_resolved workspace st :
  resolveLocalNeoai w workspace st
  = (Ret match workspace with
         | Some ws => resolved w (Some ws)
         | None => None
         end, st).
Proof.
  unfold resolveLocalNeoai. destruct workspace as [ws|]; [|done].
  mrun. rewrite resolveNeoai_resolved.
  by destruct (resolved w (Some ws)).
Qed.

(** A command that is not exempt, on a platform that passes the check,
    run by a copy that resolves itself, is routed with the values
    above. *)
Lemma main_prelude selfNeoai st :
  isExemptCommand w = false →
  passesPlatformCheck w = true →
  resolved w None = Some selfNeoai →
  main w st
  = route w (findWorkspaceRoot w) (localNeoaiOf w)
          (isLocalInstallOf w selfNeoai)
          (localVersionOf w) (globalVersionOf w selfNeoai)
          (afterPrelude w selfNeoai st).
Proof.
  intros Hexempt Hplatform Hself.
  unfold main, passesPlatformCheck, assertSupportedPlatform in *.
  rewrite Hexempt.
  unfold afterPrelude, preludeEvents, determineNeoaiVersions,
    localVersionOf, globalVersionOf, isLocalInstallOf, localNeoaiOf.
  destruct (needsPlatformCheck w); simpl in Hplatform;
    rewrite ?Hplatform;
    (destruct (findWorkspaceRoot w) as [ws|];
     [destruct (daemonEnabled w)|]);
    mrun;
    rewrite resolveLocalNeoai_resolved, resolveNeoai_resolved, Hself;
    mrun; unfold record; simpl;
    rewrite ?app_nil_r, <- ?app_assoc; reflexivity.
Qed.

Lemma run_routed selfNeoai st :
  isExemptCommand w = false →
  passesPlatformCheck w = true →
  resolved w None = Some selfNeoai →
  run w st
  = tryCatch
      (route w (findWorkspaceRoot w) (localNeoaiOf w)
             (isLocalInstallOf w selfNeoai)
             (localVersionOf w) (globalVersionOf w selfNeoai))
      (λ error, print ConsoleError (ErrorValue error);; processExit 1)
      (afterPrelude w selfNeoai st).
Proof.
  intros Hexempt Hplatform Hself. unfold run, tryCatch at 1.
  by rewrite (main_prelude selfNeoai).
Qed.

(** When the running copy does not resolve itself the error reaches the
    handler of [main().catch]. *)
Lemma run_self_unresolved st :
  isExemptCommand w = false →
  passesPlatformCheck w = true →
  resolved w None = None →
  (run w st).1 = Exited 1
  ∧ trace (run w st).2
    = trace st ++ preludeEvents w
      ++ [Print ConsoleError
            (ErrorValue (ModuleNotFound "neoai/bin/neoai.js"
                                        (globalsRoot w)));
          ProcessExit 1].
Proof.
  intros Hexempt Hplatform Hself.
  unfold run, main, passesPlatformCheck, assertSupportedPlatform,
    preludeEvents in *.
  rewrite Hexempt.
  destruct (needsPlatformCheck w); simpl in Hplatform;
    rewrite ?Hplatform;
    (destruct (findWorkspaceRoot w) as [ws|];
     [destruct (daemonEnabled w)|]);
    mrun;
    rewrite resolveLocalNeoai_resolved, resolveNeoai_resolved, Hself;
    mrun; unfold record; simpl;
    rewrite ?app_nil_r, <- ?app_assoc; done.
Qed.

(** The tokens of the cloud-only set, and what they are not. *)
Lemma cloud_command_cases :
  isNeoaiCloudCommand (argv w !! 2) = true →
  argv w !! 2 = Some "start-ci-run" ∨ argv w !! 2 = Some "login"
  ∨ argv w !! 2 = Some "logout" ∨ argv w !! 2 = Some "connect"
  ∨ argv w !! 2 = Some "view-logs" ∨ argv w !! 2 = Some "fix-ci"
  ∨ argv w !! 2 = Some "record".
Proof.
  unfold isNeoaiCloudCommand, Js.arrayIncludes.
  destruct (argv w !! 2) as [c|]; [|done]. simpl.
  rewrite !orb_true_iff, !String.eqb_eq.
  intros H. repeat (destruct H as [->|H]; [tauto|]). discriminate H.
Qed.

Lemma cloud_command_routed :
  isNeoaiCloudCommand (argv w !! 2) = true →
  needsPlatformCheck w = true
  ∧ argIs w 2 "--version" = false
  ∧ (argIs w 2 "new" || argIs w 2 "_migrate" || argIs w 2 "init"
     || argIs w 2 "graph") = false.
Proof.
  intros H. unfold needsPlatformCheck, argIs.
  destruct (cloud_command_cases H) as [E|[E|[E|[E|[E|[E|E]]]]]];
    rewrite E; done.
Qed.

Lemma cloud_command_not_exempt :
  isNeoaiCloudCommand (argv w !! 2) = true → isExemptCommand w = false.
Proof.
  intros H. destruct (cloud_command_routed H) as (_ & _ & Hx).
  unfold isExemptCommand. apply orb_false_iff in Hx as [Hx Hg].
  by rewrite Hx, Hg.
Qed.

(** The handler of [main().catch]. *)
Abbreviation topLevel :=
  (λ error : Error, print ConsoleError (ErrorValue error);; processExit 1).

(** With the marker absent or empty, a global version known, no local
    version and nothing cached, the check starts with the lookup. *)
Lemma warn_starts_with_lookup g st :
  Js.truthy (env st !! "NEOAI_CLI_SET") = false →
  Js.truthy g = true →
  Js.truthy (cache st) = false →
  ∃ rest,
    trace (warnIfUsingOutdatedGlobalInstall w g None st).2
    = trace st ++ ExecSync "npm view neoai@latest version" :: rest.
Proof.
  intros Hm Hg Hc.
  unfold warnIfUsingOutdatedGlobalInstall, checkOutdatedGlobalInstallation,
    getLatestVersionOfNeoai, _getLatestVersionOfNeoai, execSync.
  mrun. rewrite Hm, Hg. change (Js.truthy None) with false.
  mrun. rewrite Hc. mrun.
  repeat match goal with
         | |- context [match ?x with _ => _ end] =>
             lazymatch x with
             | execSyncOutput _ _ _ => destruct x
             | semverMajor _ _ => destruct x
             | Js.truthy _ => destruct x
             | N.ltb _ _ => destruct x
             end; mrun
         end.
  all: unfold record; simpl; rewrite <- ?app_assoc; by eexists.
Qed.

(** The route of a command run outside of every workspace: the
    guidance, the version check, exit code 1. *)
Lemma route_no_workspace localNeoai isLocalInstall l g st :
  argIs w 2 "--version" = false →
  ∃ check tail,
    (tryCatch (route w None localNeoai isLocalInstall l g) topLevel st).1
    = Exited 1
    ∧ trace (tryCatch (route w None localNeoai isLocalInstall l g)
                      topLevel st).2
      = trace st
        ++ [Print OutputLog NotInWorkspace; Print OutputNote MoreInformation]
        ++ check ++ tail
    ∧ Forall (λ ev, isVersionCheckEvent ev = true) check
    ∧ (tail = [ProcessExit 1]
       ∨ ∃ err, tail = [Print ConsoleError (ErrorValue err); ProcessExit 1])
    ∧ (Js.truthy (env st !! "NEOAI_CLI_SET") = false →
       Js.truthy g = true → Js.truthy (cache st) = false →
       head check = Some (ExecSync "npm view neoai@latest version"))
    ∧ (Js.truthy (env st !! "NEOAI_CLI_SET") = true → check = []).
Proof.
  intros Hversion.
  set (st2 := record (record st (Print OutputLog NotInWorkspace))
                     (Print OutputNote MoreInformation)).
  destruct (adds_warnIfUsingOutdatedGlobalInstall w
              (λ ev, isVersionCheckEvent ev = true) g None
              ltac:(done) st2) as (check & E & HP & _ & Hx).
  assert (trace st2 ++ check
          = trace st ++ [Print OutputLog NotInWorkspace;
                         Print OutputNote MoreInformation] ++ check)
    as Est by (unfold st2, record; simpl; by rewrite <- !app_assoc).
  assert (Js.truthy (env st !! "NEOAI_CLI_SET") = false →
          Js.truthy g = true → Js.truthy (cache st) = false →
          head check = Some (ExecSync "npm view neoai@latest version"))
    as Hhead.
  { intros Hm Hg Hc.
    destruct (warn_starts_with_lookup g st2 Hm Hg Hc) as (rest & E').
    rewrite E in E'. apply app_inv_head in E'. by rewrite E'. }
  assert (Js.truthy (env st !! "NEOAI_CLI_SET") = true → check = [])
    as Hquiet.
  { intros Hm.
    rewrite (warn_suppressed_by_marker w st2 g None Hm) in E.
    change (trace st2 = trace st2 ++ check) in E.
    rewrite <- (app_nil_r (trace st2)) in E at 1.
    by apply app_inv_head in E. }
  unfold route, handleNoWorkspace. rewrite Hversion.
  assert (bool_decide (is_Some (@None Workspace)) = false) as ->
    by apply bool_decide_eq_false_2, is_Some_None.
  mrun. fold st2. clearbody st2.
  destruct (warnIfUsingOutdatedGlobalInstall w g None st2)
    as [[[]|err|c] st3]; simpl in E, Hx.
  - exists check, [ProcessExit 1]. unfold record; simpl.
    rewrite E, Est, <- !app_assoc. auto 10.
  - exists check, [Print ConsoleError (ErrorValue err); ProcessExit 1].
    unfold record; simpl. rewrite E, Est, <- !app_assoc.
    repeat split; [done|by right; eexists|done..].
  - specialize (Hx c eq_refl). apply last_Some in Hx as [front ->].
    apply Forall_app in HP as [_ HP]. by inversion HP.
Qed.

(** The route of a cloud-only command inside a workspace. *)
Lemma route_cloud ws localNeoai isLocalInstall l g st :
  isNeoaiCloudCommand (argv w !! 2) = true →
  tryCatch (route w (Some ws) localNeoai isLocalInstall l g) topLevel st
  = tryCatch (setEnv "NEOAI_DAEMON" "false";; commandsArgv w) topLevel st.
Proof.
  intros Hcloud. destruct (cloud_command_routed Hcloud) as (_ & Hv & _).
  unfold route. rewrite Hv, Hcloud.
  assert (bool_decide (is_Some (Some ws)) = true) as ->
    by by apply bool_decide_eq_true_2.
  rewrite andb_false_r. reflexivity.
Qed.
End WithWorld.




Lemma replay_keeps_marker rest (e : gmap string string) :
  Forall (λ ev, isInitLocalEvent ev = true) rest →
  e !! "NEOAI_CLI_SET" = Some "true" →
  replayEnv rest e !! "NEOAI_CLI_SET" = Some "true".
Proof.
  intros H. revert e. induction H as [|ev rest Hev _ IH]; [done|].
  intros e He. unfold replayEnv. simpl. apply IH.
  destruct ev; try done. simpl in Hev.
  apply andb_true_iff in Hev as [->%String.eqb_eq ->%String.eqb_eq].
  apply lookup_insert_eq.
Qed.

Section InitLocalTrace.
Context (w : World) (P : Event → Prop).
Hypothesis HP : ∀ ev, isInitLocalEvent ev = true → P ev.

Lemma adds_guidance lines :
  adds P (foldr (λ line rest, print ConsoleLog (NgUpdateGuidance line);; rest)
                (mret ()) lines).
Proof. induction lines; simpl; adds_auto. by apply HP. Qed.

Lemma adds_handleAngularCLIFallbacks ws :
  adds P (handleAngularCLIFallbacks w ws).
Proof.
  unfold handleAngularCLIFallbacks.
  adds_auto; try apply adds_guidance; try apply adds_requireResolve;
    try (apply adds_requireModule; [|done]); by apply HP.
Qed.

Lemma adds_runLocalCommand workspace : adds P (runLocalCommand w workspace).
Proof.
  unfold runLocalCommand, commandsShowHelp.
  adds_auto; try apply adds_handleAngularCLIFallbacks;
    try apply adds_commandsParse; by apply HP.
Qed.

(** [initLocal] after its first action. *)
Lemma adds_initLocal_try workspace :
  adds P (tryCatch (runLocalCommand w workspace)
            (λ e, print ConsoleError (ErrorMessage e);; processExit 1)).
Proof. adds_auto; try apply adds_runLocalCommand; by apply HP. Qed.

End InitLocalTrace.

Lemma reaches_app t tr tr' :
  reaches t (tr ++ tr') = reaches t tr || reaches t tr'.
Proof. apply existsb_app. Qed.

Lemma version_check_enters_nothing t check :
  Forall (λ ev, isVersionCheckEvent ev = true) check → reaches t check = false.
Proof.
  induction 1 as [|ev check Hev _ IH]; [done|]. simpl. rewrite IH.
  destruct ev; try discriminate Hev; destruct t; try done.
  all: repeat match goal with
              | x : Channel |- _ => destruct x
              | x : Message |- _ => destruct x
              end; done.
Qed.

Lemma prelude_enters_nothing w t : reaches t (preludeEvents w) = false.
Proof.
  unfold preludeEvents.
  destruct (needsPlatformCheck w), (findWorkspaceRoot w) as [ws|];
    [destruct (daemonEnabled w)| |destruct (daemonEnabled w)|];
    by destruct t.
Qed.

(** C1, as the code has it.  A cloud-only command, on a supported
    platform and run by a copy that resolves itself: inside a workspace it
    runs in process with NEOAI_DAEMON set to false, whether a local
    installation resolves or not, and neither [ExitNoWorkspace],
    [ExitMissingLocal] nor [Delegate] is reached; outside of every
    workspace it ends in [ExitNoWorkspace] with exit code 1 and never runs
    in process. *)
Theorem cloud_commands_need_a_workspace
    (w : World) (e : gmap string string) (selfNeoai : string) :
  isNeoaiCloudCommand (argv w !! 2) = true →
  platformSupported w = true →
  resolved w None = Some selfNeoai →
  (∀ ws, findWorkspaceRoot w = Some ws →
     trace (run w (initialState e)).2
     = preludeEvents w ++ [SetEnv "NEOAI_DAEMON" "false"; CommandsArgv]
       ++ match argvFailure w with
          | Some message =>
              [Print ConsoleError (ErrorValue (CommandFailed message));
               ProcessExit 1]
          | None => []
          end
     ∧ env (run w (initialState e)).2 !! "NEOAI_DAEMON" = Some "false"
     ∧ reaches InProcess (trace (run w (initialState e)).2) = true
     ∧ reaches ExitNoWorkspace (trace (run w (initialState e)).2) = false
     ∧ reaches ExitMissingLocal (trace (run w (initialState e)).2) = false
     ∧ reaches Delegate (trace (run w (initialState e)).2) = false)
  ∧ (findWorkspaceRoot w = None →
     (run w (initialState e)).1 = Exited 1
     ∧ reaches ExitNoWorkspace (trace (run w (initialState e)).2) = true
     ∧ reaches InProcess (trace (run w (initialState e)).2) = false).
Proof.
  intros Hcloud Hplatform Hself.
  pose proof (cloud_command_not_exempt w Hcloud) as Hexempt.
  assert (passesPlatformCheck w = true) as Hpass
    by (unfold passesPlatformCheck; rewrite Hplatform; apply orb_true_r).
  rewrite (run_routed w selfNeoai _ Hexempt Hpass Hself).
  split.
  - intros ws Hws. rewrite Hws, route_cloud by done.
    assert (trace (tryCatch (setEnv "NEOAI_DAEMON" "false";; commandsArgv w)
                    (λ error, print ConsoleError (ErrorValue error);;
                              processExit 1)
                    (afterPrelude w selfNeoai (initialState e))).2
            = preludeEvents w ++ [SetEnv "NEOAI_DAEMON" "false"; CommandsArgv]
              ++ match argvFailure w with
                 | Some message =>
                     [Print ConsoleError (ErrorValue (CommandFailed message));
                      ProcessExit 1]
                 | None => []
                 end) as Htrace.
    { unfold commandsArgv. mrun.
      destruct (argvFailure w); unfold record; simpl;
        by rewrite <- ?app_assoc. }
    rewrite Htrace. split; [done|]. split.
    { unfold commandsArgv. mrun.
      destruct (argvFailure w); simpl; apply lookup_insert_eq. }
    rewrite !reaches_app, !prelude_enters_nothing.
    by destruct (argvFailure w).
  - intros Hws. rewrite Hws.
    destruct (cloud_command_routed w Hcloud) as (_ & Hversion & _).
    destruct (route_no_workspace w (localNeoaiOf w)
                (isLocalInstallOf w selfNeoai) (localVersionOf w)
                (globalVersionOf w selfNeoai)
                (afterPrelude w selfNeoai (initialState e)) Hversion)
      as (check & tail & -> & -> & Hcheck & Htail & _ & _).
    split; [done|]. simpl trace.
    rewrite !reaches_app, !prelude_enters_nothing.
    rewrite !(version_check_enters_nothing _ check) by done.
    by destruct Htail as [->|[err ->]].
Qed.

(** [neoai login] in the workspace [/ws], where no local copy resolves. *)
Lemma cloud_commands_need_a_workspace_witness :
  localNeoaiOf (Sample.world ["login"] (Some Sample.ws) Sample.globalOnly
                             Sample.offline) = None
  ∧ trace (run (Sample.world ["login"] (Some Sample.ws) Sample.globalOnly
                             Sample.offline) (initialState ∅)).2
    = [AssertPlatform; LoadRootEnvFiles "/ws"; SetupWorkspaceContext "/ws";
       SetEnv "NEOAI_DAEMON" "false"; CommandsArgv]
  ∧ env (run (Sample.world ["login"] (Some Sample.ws) Sample.globalOnly
                           Sample.offline) (initialState ∅)).2
    !! "NEOAI_DAEMON" = Some "false"
  ∧ reaches InProcess
      (trace (run (Sample.world ["login"] (Some Sample.ws)
                                Sample.globalOnly Sample.offline)
                  (initialState ∅)).2) = true
  ∧ reaches ExitNoWorkspace
      (trace (run (Sample.world ["login"] (Some Sample.ws)
                                Sample.globalOnly Sample.offline)
                  (initialState ∅)).2) = false
  ∧ reaches ExitMissingLocal
      (trace (run (Sample.world ["login"] (Some Sample.ws)
                                Sample.globalOnly Sample.offline)
                  (initialState ∅)).2) = false
  ∧ reaches Delegate
      (trace (run (Sample.world ["login"] (Some Sample.ws)
                                Sample.globalOnly Sample.offline)
                  (initialState ∅)).2) = false.
Proof.
  split; [reflexivity|].
  exact (proj1 (cloud_commands_need_a_workspace
                  (Sample.world ["login"] (Some Sample.ws) Sample.globalOnly
                                Sample.offline)
                  ∅ Sample.globalPath eq_refl eq_refl eq_refl)
               Sample.ws eq_refl).
Defined.

(** [neoai login] outside of every workspace, with no local installation:
    the guidance is printed and the process exits with code 1; the
    command does not run. *)
Lemma login_outside_workspace_exits :
  isNeoaiCloudCommand
    (argv (Sample.world ["login"] None Sample.globalOnly Sample.offline) !! 2)
  = true
  ∧ (run (Sample.world ["login"] None Sample.globalOnly Sample.offline)
         (initialState ∅)).1 = Exited 1
  ∧ trace (run (Sample.world ["login"] None Sample.globalOnly Sample.offline)
               (initialState ∅)).2
    = [AssertPlatform; Print OutputLog NotInWorkspace;
       Print OutputNote MoreInformation;
       ExecSync "npm view neoai@latest version";
       ExecSync "pnpm view neoai@latest version";
       ProcessExit 1]
  ∧ reaches InProcess
      (trace (run (Sample.world ["login"] None Sample.globalOnly
                                Sample.offline) (initialState ∅)).2)
    = false
  ∧ reaches ExitNoWorkspace
      (trace (run (Sample.world ["login"] None Sample.globalOnly
                                Sample.offline) (initialState ∅)).2)
    = true.
Proof. repeat split; reflexivity. Qed.

(** C6, as the code has it.  Inside [resolveNeoai] a failure of the
    managed-installation attempt is swallowed and the root attempt follows;
    a failure of the root attempt is thrown to the caller.  For the local
    (workspace) resolution [main] catches it: the local path is null and
    nothing is thrown.  For the self (globals-relative) resolution nothing
    catches it: the error reaches the top-level handler, which prints it
    and exits with code 1. *)
Theorem local_resolution_failure_swallowed_self_fatal
    (w : World) (e : gmap string string) :
  (∀ workspace st,
     resolution w "neoai/bin/neoai.js"
       (getNeoaiInstallationPath w (searchRoot w workspace)) = None →
     resolveNeoai w workspace st
     = requireResolve w "neoai/bin/neoai.js" (searchRoot w workspace) st)
  ∧ (∀ workspace st,
       resolved w workspace = None →
       resolveNeoai w workspace st
       = (Throw (ModuleNotFound "neoai/bin/neoai.js" (searchRoot w workspace)),
          st))
  ∧ (∀ workspace st,
       resolveLocalNeoai w workspace st
       = (Ret match workspace with
              | Some ws => resolved w (Some ws)
              | None => None
              end, st))
  ∧ (isExemptCommand w = false →
     passesPlatformCheck w = true →
     resolved w None = None →
     (run w (initialState e)).1 = Exited 1
     ∧ trace (run w (initialState e)).2
       = preludeEvents w
         ++ [Print ConsoleError
               (ErrorValue (ModuleNotFound "neoai/bin/neoai.js"
                                           (globalsRoot w)));
             ProcessExit 1]
     ∧ reaches ExitError (trace (run w (initialState e)).2) = true).
Proof.
  split; [|split; [|split]].
  - intros workspace st H. unfold resolveNeoai, searchRoot in *. by rewrite H.
  - intros workspace st H. rewrite resolveNeoai_resolved, H.
    by destruct workspace.
  - apply resolveLocalNeoai_resolved.
  - intros Hexempt Hplatform Hself.
    destruct (run_self_unresolved w (initialState e) Hexempt Hplatform Hself)
      as [-> ->].
    split; [done|]. split; [done|].
    simpl. rewrite reaches_app. apply orb_true_iff. by right.
Qed.

(** [neoai build] in [/ws] where no copy resolves at all: the local failure
    gives a null path, the self failure ends the process. *)
Lemma local_resolution_failure_swallowed_self_fatal_witness :
  resolveLocalNeoai
    (Sample.world ["build"] (Some Sample.ws) Sample.nothingResolves
                  Sample.offline)
    (Some Sample.ws) (initialState ∅)
  = (Ret None, initialState ∅)
  ∧ (run (Sample.world ["build"] (Some Sample.ws) Sample.nothingResolves
                       Sample.offline) (initialState ∅)).1 = Exited 1
  ∧ trace (run (Sample.world ["build"] (Some Sample.ws)
                             Sample.nothingResolves Sample.offline)
               (initialState ∅)).2
    = preludeEvents (Sample.world ["build"] (Some Sample.ws)
                                  Sample.nothingResolves Sample.offline)
      ++ [Print ConsoleError
            (ErrorValue (ModuleNotFound "neoai/bin/neoai.js" "/usr/lib"));
          ProcessExit 1]
  ∧ reaches ExitError
      (trace (run (Sample.world ["build"] (Some Sample.ws)
                                Sample.nothingResolves Sample.offline)
                  (initialState ∅)).2) = true.
Proof.
  split.
  - exact (proj1 (proj2 (proj2
             (local_resolution_failure_swallowed_self_fatal
                (Sample.world ["build"] (Some Sample.ws)
                              Sample.nothingResolves Sample.offline) ∅)))
             (Some Sample.ws) (initialState ∅)).
  - exact (proj2 (proj2 (proj2
             (local_resolution_failure_swallowed_self_fatal
                (Sample.world ["build"] (Some Sample.ws)
                              Sample.nothingResolves Sample.offline) ∅)))
             eq_refl eq_refl eq_refl).
Defined.

(** The running copy cannot resolve itself: [resolveNeoai] throws to
    [main], and the error goes on to the top-level handler. *)
Lemma self_resolution_failure_propagates :
  resolveNeoai
    (Sample.world ["build"] (Some Sample.ws) Sample.nothingResolves
                  Sample.offline) None (initialState ∅)
  = (Throw (ModuleNotFound "neoai/bin/neoai.js" "/usr/lib"), initialState ∅)
  ∧ run (Sample.world ["build"] (Some Sample.ws) Sample.nothingResolves
                      Sample.offline) (initialState ∅)
    = (Exited 1,
       {| env := ∅; cache := None; globalThisVersion := None;
          trace := [AssertPlatform; LoadRootEnvFiles "/ws";
                    SetupWorkspaceContext "/ws";
                    Print ConsoleError
                      (ErrorValue (ModuleNotFound "neoai/bin/neoai.js"
                                                  "/usr/lib"));
                    ProcessExit 1] |}).
Proof. split; reflexivity. Qed.

(** C10.  A command that is neither exempt nor [--version], outside of
    every workspace (the platform check passed, the running copy resolved):
    the process prints the guidance and the note, then runs the version
    check, then exits with code 1.  The check has no local version to
    compare with: unless NEOAI_CLI_SET holds a non-empty value (then it does
    nothing) it starts, for a non-empty global version, by running the
    registry lookup. *)
Theorem no_workspace_exit_runs_version_check
    (w : World) (e : gmap string string) (selfNeoai : string) :
  findWorkspaceRoot w = None →
  isExemptCommand w = false →
  argIs w 2 "--version" = false →
  passesPlatformCheck w = true →
  resolved w None = Some selfNeoai →
  ∃ check tail,
    (run w (initialState e)).1 = Exited 1
    ∧ trace (run w (initialState e)).2
      = preludeEvents w
        ++ [Print OutputLog NotInWorkspace; Print OutputNote MoreInformation]
        ++ check ++ tail
    ∧ Forall (λ ev, isVersionCheckEvent ev = true) check
    ∧ (tail = [ProcessExit 1]
       ∨ ∃ err, tail = [Print ConsoleError (ErrorValue err); ProcessExit 1])
    ∧ (Js.truthy (e !! "NEOAI_CLI_SET") = false →
       packageVersion w ≠ "" →
       head check = Some (ExecSync "npm view neoai@latest version"))
    ∧ (Js.truthy (e !! "NEOAI_CLI_SET") = true → check = []).
Proof.
  intros Hws Hexempt Hversion Hplatform Hself.
  rewrite (run_routed w selfNeoai _ Hexempt Hplatform Hself), Hws.
  destruct (route_no_workspace w (localNeoaiOf w)
              (isLocalInstallOf w selfNeoai) (localVersionOf w)
              (globalVersionOf w selfNeoai)
              (afterPrelude w selfNeoai (initialState e)) Hversion)
    as (check & tail & -> & -> & Hcheck & Htail & Hhead & Hquiet).
  exists check, tail. repeat split; try done.
  intros Hm Hv. apply Hhead; [done| |done].
  unfold globalVersionOf, isLocalInstallOf, localNeoaiOf. rewrite Hws. simpl.
  by apply negb_true_iff, String.eqb_neq.
Qed.

(** [neoai build] outside of every workspace, the registry in reach. *)
Lemma no_workspace_exit_runs_version_check_witness :
  ∃ check tail,
    (run (Sample.buildOutside (Sample.registry "19.2.0")) (initialState ∅)).1
    = Exited 1
    ∧ trace (run (Sample.buildOutside (Sample.registry "19.2.0"))
                 (initialState ∅)).2
      = [AssertPlatform; Print OutputLog NotInWorkspace;
         Print OutputNote MoreInformation] ++ check ++ tail
    ∧ Forall (λ ev, isVersionCheckEvent ev = true) check
    ∧ (tail = [ProcessExit 1]
       ∨ ∃ err, tail = [Print ConsoleError (ErrorValue err); ProcessExit 1])
    ∧ head check = Some (ExecSync "npm view neoai@latest version").
Proof.
  destruct (no_workspace_exit_runs_version_check
              (Sample.buildOutside (Sample.registry "19.2.0")) ∅
              Sample.globalPath eq_refl eq_refl eq_refl eq_refl eq_refl)
    as (check & tail & Hexit & Htrace & Hcheck & Htail & Hhead & _).
  exists check, tail.
  split; [exact Hexit|]. split; [exact Htrace|]. split; [exact Hcheck|].
  split; [exact Htail|]. apply Hhead; [reflexivity|discriminate].
Defined.

(** The same run, action by action. *)
Example build_outside_workspace :
  trace (run (Sample.buildOutside (Sample.registry "19.2.0"))
             (initialState ∅)).2
  = [AssertPlatform; Print OutputLog NotInWorkspace;
     Print OutputNote MoreInformation;
     ExecSync "npm view neoai@latest version";
     Print OutputWarn (TimeToUpdate None); ProcessExit 1].
Proof. reflexivity. Qed.

(** *** Running in process and handing off *)

Lemma initLocal_first_action w workspace st :
  initLocal w workspace st
  = tryCatch (runLocalCommand w workspace)
      (λ e, print ConsoleError (ErrorMessage e);; processExit 1)
      {| env := <["NEOAI_CLI_SET" := "true"]> (env st); cache := cache st;
         globalThisVersion := globalThisVersion st;
         trace := trace st ++ [SetEnv "NEOAI_CLI_SET" "true"] |}.
Proof. reflexivity. Qed.

(** C9.  The first action of [initLocal] writes [true] to NEOAI_CLI_SET:
    every other action of the run (the commands parsed, the help shown, the
    Angular CLI required, the lines printed) comes after it in the trace,
    none of them changes the variable, and in every state where the variable
    holds [true] the outdated-global check does nothing at all. *)
Theorem initLocal_sets_marker_first
    (w : World) (workspace : option Workspace) (st : State) :
  ∃ rest,
    trace (initLocal w workspace st).2
    = trace st ++ SetEnv "NEOAI_CLI_SET" "true" :: rest
    ∧ Forall (λ ev, isInitLocalEvent ev = true) rest
    ∧ env (initLocal w workspace st).2 !! "NEOAI_CLI_SET" = Some "true"
    ∧ (∀ g l,
         warnIfUsingOutdatedGlobalInstall w g l (initLocal w workspace st).2
         = (Ret (), (initLocal w workspace st).2))
    ∧ (∀ later g l,
         env later !! "NEOAI_CLI_SET" = Some "true" →
         warnIfUsingOutdatedGlobalInstall w g l later = (Ret (), later)).
Proof.
  rewrite initLocal_first_action.
  set (st1 := {| env := <["NEOAI_CLI_SET" := "true"]> (env st);
                 cache := cache st;
                 globalThisVersion := globalThisVersion st;
                 trace := trace st ++ [SetEnv "NEOAI_CLI_SET" "true"] |}).
  destruct (adds_initLocal_try w (λ ev, isInitLocalEvent ev = true)
              (λ _ H, H) workspace st1)
    as (rest & E & Hrest & Henv & _).
  assert (∀ later g l,
            env later !! "NEOAI_CLI_SET" = Some "true" →
            warnIfUsingOutdatedGlobalInstall w g l later = (Ret (), later))
    as Hquiet.
  { intros later g l Hm. apply warn_suppressed_by_marker. by rewrite Hm. }
  assert (env (tryCatch (runLocalCommand w workspace)
                 (λ e, print ConsoleError (ErrorMessage e);; processExit 1)
                 st1).2 !! "NEOAI_CLI_SET" = Some "true") as Hm.
  { rewrite Henv. apply replay_keeps_marker; [done|]. apply lookup_insert_eq. }
  exists rest. rewrite E. unfold st1 at 1. simpl. rewrite <- app_assoc.
  repeat split; try done. intros g l. by apply Hquiet.
Qed.

(** [neoai build -p a b] run by the local copy of [/ws]. *)
Lemma initLocal_sets_marker_first_witness :
  trace (initLocal (Sample.world ["build"; "-p"; "a"; "b"] (Some Sample.ws)
                                 Sample.globalAndLocal Sample.offline)
                   (Some Sample.ws) (initialState ∅)).2
  = [SetEnv "NEOAI_CLI_SET" "true"; EnsureConsoleInstalled;
     Parse [Some "build"; Some "-p"; Some "a,b"]]
  ∧ warnIfUsingOutdatedGlobalInstall
      (Sample.world ["build"; "-p"; "a"; "b"] (Some Sample.ws)
                    Sample.globalAndLocal Sample.offline)
      (Some "18.0.0") (Some "19.1.0")
      (initLocal (Sample.world ["build"; "-p"; "a"; "b"] (Some Sample.ws)
                               Sample.globalAndLocal Sample.offline)
                 (Some Sample.ws) (initialState ∅)).2
    = (Ret (),
       (initLocal (Sample.world ["build"; "-p"; "a"; "b"] (Some Sample.ws)
                                Sample.globalAndLocal Sample.offline)
                  (Some Sample.ws) (initialState ∅)).2).
Proof.
  split; [reflexivity|].
  destruct (initLocal_sets_marker_first
              (Sample.world ["build"; "-p"; "a"; "b"] (Some Sample.ws)
                            Sample.globalAndLocal Sample.offline)
              (Some Sample.ws) (initialState ∅))
    as (rest & _ & _ & _ & H & _).
  exact (H (Some "18.0.0") (Some "19.1.0")).
Defined.





(** The same two runs, and a third where the local copy lives in the
    managed installation, action by action. *)
Example build_by_local_copy :
  run (Sample.world ["build"] (Some Sample.ws) Sample.localOnly
                    Sample.offline) (initialState ∅)
  = (Ret (),
     {| env := {["NEOAI_CLI_SET" := "true"]}; cache := None;
        globalThisVersion := None;
        trace := [AssertPlatform; LoadRootEnvFiles "/ws";
                  SetupWorkspaceContext "/ws";
                  SetEnv "NEOAI_CLI_SET" "true"; EnsureConsoleInstalled;
                  Parse [Some "build"]] |}).
Proof. reflexivity. Qed.

Example build_by_global_copy :
  trace (run Sample.buildFromGlobal (initialState ∅)).2
  = [AssertPlatform; LoadRootEnvFiles "/ws"; SetupWorkspaceContext "/ws";
     Print OutputWarn (TimeToUpdate (Some ("19.1.0", Some "18.0.0")));
     Require "/ws/node_modules/neoai/bin/neoai.js"].
Proof. reflexivity. Qed.

Example build_by_global_copy_managed :
  trace (run (Sample.world ["build"] (Some Sample.ws) Sample.globalAndManaged
                           Sample.offline) (initialState ∅)).2
  = [AssertPlatform; LoadRootEnvFiles "/ws"; SetupWorkspaceContext "/ws";
     Print OutputWarn (TimeToUpdate (Some ("19.1.0", Some "18.0.0")));
     Require "/ws/.neoai/neoaiw.js"].
Proof. reflexivity. Qed.


End DispatcherFacts.

(** ** The post-install step *)

Module PostInstallFacts.
Import Effects PostInstall.

Local Open Scope N_scope.


Lemma earliest_le l p : p ∈ l → earliest l ≤ p.1.
Proof.
  induction l as [|q l IH]; [by intros ?%elem_of_nil|].
  intros [->|Hin]%elem_of_cons; simpl; [lia|]. specialize (IH Hin). lia.
Qed.






Example slow_work_is_cut_at_the_budget :
  outcomes (Sample.installing (Fulfils 40000) None)
  = [{| cause := Watchdog; exitCode := 0; exitAt := 30000;
        timerCleared := false; log := [TimedOut] |}].
Proof. reflexivity. Qed.

Example failing_work_exits_zero :
  outcomes (Sample.installing (Rejects 1200 (CommandFailed "offline")) None)
  = [{| cause := WorkDone; exitCode := 0; exitAt := 1200;
        timerCleared := true;
        log := [Caught (CommandFailed "offline"); Took 1200] |}].
Proof. reflexivity. Qed.

Example stray_error_exits_zero :
  outcomes (Sample.installing NeverSettles (Some (5, NullDereference)))
  = [{| cause := TopLevelHandler; exitCode := 0; exitAt := 5;
        timerCleared := false; log := [Caught NullDereference] |}].
Proof. reflexivity. Qed.

(** Work that settles at the very instant the timer is due: either may
    come first, and both end the process with code 0. *)
Example tie_at_the_budget :
  exitCode <$> outcomes (Sample.installing (Fulfils 30000) None)
  = [0%Z; 0%Z].
Proof. reflexivity. Qed.

End PostInstallFacts.

(** ** More on the ArgumentNormalizer *)

Module NormalizerMore.
Import Normalizer.
Export NormalizerFacts.

(** A token with a leading dash. *)
Abbreviation dash := (λ s : string, Js.startsWith "-" s = true).

Lemma scan_cases a l :
  (a = "--" ∧ scan (a :: l) = a :: l)
  ∨ (isCollectorFlag a = true
     ∧ ∃ items more,
         l = items ++ more ∧ Forall notDash items ∧ stopsCollect more
         ∧ length more ≤ length l
         ∧ scan (a :: l) = a :: Js.join "," items :: scan more)
  ∨ (a ≠ "--" ∧ isCollectorFlag a = false ∧ scan (a :: l) = a :: scan l).
Proof.
  destruct (String.eqb_spec a "--") as [->|Hne].
  { left. by rewrite scan_separator. }
  destruct (isCollectorFlag a) eqn:Hflag.
  - right; left. split; [done|].
    destruct (split_items l) as (items & more & -> & Hi & Hm & Hlen).
    exists items, more. by rewrite scan_collector.
  - right; right. rewrite scan_other; [done| |done].
    by apply String.eqb_neq.
Qed.

(** Induction on the tokens that follows the three cases of the loop. *)
Lemma scan_ind (P : list string → Prop) :
  P [] →
  (∀ l, P ("--" :: l)) →
  (∀ a items more,
     isCollectorFlag a = true → Forall notDash items → stopsCollect more →
     P more → P (a :: items ++ more)) →
  (∀ a l, a ≠ "--" → isCollectorFlag a = false → P l → P (a :: l)) →
  ∀ l, P l.
Proof.
  intros Hnil Hsep Hflag Hother l.
  remember (length l) as n eqn:Hn. revert l Hn.
  induction n as [n IH] using lt_wf_ind; intros [|a l] Hn; [done|].
  simpl in Hn.
  destruct (scan_cases a l)
    as [[-> _]|[[Hc (items & more & -> & Hi & Hm & Hlen & _)]
               |(Hne & Hc & _)]].
  - apply Hsep.
  - apply Hflag; [done..|]. apply (IH (length more)); [lia|done].
  - apply Hother; [done..|]. apply (IH (length l)); [lia|done].
Qed.

Lemma join_not_dash items :
  Forall notDash items → notDash (Js.join "," items).
Proof.
  unfold notDash, Js.join, Js.startsWith.
  destruct 1 as [|x items Hx _]; [done|].
  cbn [String.concat]. destruct items as [|y items]; [done|].
  destruct x as [|c x]; [reflexivity|].
  cbn [String.prefix] in Hx.
  change (String.prefix "-" (String c (x +:+ "," +:+ String.concat "," (y :: items)))
          = false).
  cbn [String.prefix].
  destruct (Ascii.ascii_dec _ c); [|done]. by destruct x.
Qed.

Lemma filter_not_dash items :
  Forall notDash items → filter dash items = [].
Proof.
  induction 1 as [|x items Hx _ IH]; [done|].
  rewrite filter_cons_False; [done|]. unfold notDash in Hx. congruence.
Qed.

Lemma scan_keeps_dashes l : filter dash (scan l) = filter dash l.
Proof.
  induction l as [|l|a items more Hc Hi Hm IH|a l Hne Hc IH] using scan_ind.
  - done.
  - by rewrite scan_separator.
  - rewrite scan_collector by done.
    rewrite (filter_cons_True _ a (items ++ more))
      by by apply collector_dash.
    rewrite filter_cons_True by by apply collector_dash.
    rewrite filter_cons_False
      by (pose proof (join_not_dash items Hi) as H; unfold notDash in H;
          congruence).
    by rewrite filter_app, (filter_not_dash items Hi), IH.
  - rewrite scan_other by (by apply String.eqb_neq || done).
    rewrite !filter_cons. by rewrite IH.
Qed.

Lemma scan_stops l : stopsCollect l → stopsCollect (scan l).
Proof.
  destruct l as [|a l]; [done|]. intros H t Ht.
  specialize (H a eq_refl).
  destruct (scan_cases a l)
    as [[-> E]|[[_ (items & more & _ & _ & _ & _ & E)]|(_ & _ & E)]];
    rewrite E in Ht; by injection Ht as <-.
Qed.

Lemma scan_idempotent l : scan (scan l) = scan l.
Proof.
  induction l as [|l|a items more Hc Hi Hm IH|a l Hne Hc IH] using scan_ind.
  - done.
  - by rewrite !scan_separator.
  - rewrite scan_collector by done.
    pose proof (scan_collector a [Js.join "," items] (scan more) Hc) as E.
    simpl in E. rewrite E, IH; [done| |by apply scan_stops].
    constructor; [by apply join_not_dash|constructor].
  - rewrite scan_other by (by apply String.eqb_neq || done).
    rewrite scan_other by (by apply String.eqb_neq || done).
    by rewrite IH.
Qed.

Lemma scan_length l : length (scan l) ≤ 2 * length l.
Proof.
  induction l as [|l|a items more Hc Hi Hm IH|a l Hne Hc IH] using scan_ind.
  - done.
  - rewrite scan_separator. simpl. lia.
  - rewrite scan_collector by done. simpl. rewrite length_app. lia.
  - rewrite scan_other by (by apply String.eqb_neq || done). simpl. lia.
Qed.

Lemma scan_plain l :
  Forall (λ a, isCollectorFlag a = false) l → scan l = l.
Proof.
  induction 1 as [|a l Ha _ IH]; [done|].
  destruct (String.eqb_spec a "--") as [->|Hne]; [by rewrite scan_separator|].
  rewrite scan_other; [by rewrite IH|by apply String.eqb_neq|done].
Qed.

Lemma rewrite_inv args out :
  rewriteTargetsAndProjects args = Some out →
  ∃ node script command l,
    args = node :: script :: command :: l ∧ out = command :: scan l.
Proof.
  destruct args as [|node [|script [|command l]]]; try done.
  rewrite rewrite_scan. intros [= <-]. by exists node, script, command, l.
Qed.

(** X1.  On an array that holds a command token the result begins with
    that token, and what follows has at most two tokens for each token
    scanned. *)
Theorem rewrite_starts_with_command (args : list string) :
  3 ≤ length args →
  ∃ command rest,
    args !! 2 = Some command
    ∧ rewriteTargetsAndProjects args = Some (command :: rest)
    ∧ length rest ≤ 2 * (length args - 3).
Proof.
  intros Hlen.
  destruct args as [|node [|script [|command l]]]; simpl in Hlen; try lia.
  exists command, (scan l). rewrite rewrite_scan.
  repeat split. simpl. rewrite Nat.sub_0_r. apply scan_length.
Qed.

Lemma rewrite_starts_with_command_witness :
  ∃ command rest,
    ["node"; "cli"; "test"; "-t"; "-p"] !! 2 = Some command
    ∧ rewriteTargetsAndProjects ["node"; "cli"; "test"; "-t"; "-p"]
      = Some (command :: rest)
    ∧ length rest ≤ 2 * (length ["node"; "cli"; "test"; "-t"; "-p"] - 3).
Proof.
  apply (rewrite_starts_with_command ["node"; "cli"; "test"; "-t"; "-p"]).
  simpl. lia.
Defined.

(** X2.  When none of the tokens after the command is a collector flag,
    the result is the array from the command token on, unchanged. *)
Theorem rewrite_without_collectors_is_slice (args : list string) :
  3 ≤ length args →
  Forall (λ a, isCollectorFlag a = false) (drop 3 args) →
  rewriteTargetsAndProjects args = Some (drop 2 args).
Proof.
  intros Hlen Hplain.
  destruct args as [|node [|script [|command l]]]; simpl in Hlen; try lia.
  rewrite rewrite_scan. simpl in *. by rewrite scan_plain.
Qed.

Lemma rewrite_without_collectors_is_slice_witness :
  rewriteTargetsAndProjects
    ["node"; "cli"; "serve"; "app"; "--port"; "4200"; "--"; "-p"; "x"]
  = Some (drop 2 ["node"; "cli"; "serve"; "app"; "--port"; "4200"; "--";
                  "-p"; "x"])
  ∧ rewriteTargetsAndProjects ["node"; "cli"; "serve"; "app"; "--verbose"]
    = Some (drop 2 ["node"; "cli"; "serve"; "app"; "--verbose"]).
Proof.
  split; [reflexivity|].
  apply (rewrite_without_collectors_is_slice
           ["node"; "cli"; "serve"; "app"; "--verbose"]).
  - simpl. lia.
  - repeat constructor.
Defined.

(** X3.  The tokens with a leading dash come out as they went in: the same
    ones, in the same order.  Rewriting drops no flag, adds none and moves
    none. *)
Theorem rewrite_keeps_dash_tokens (args out : list string) :
  rewriteTargetsAndProjects args = Some out →
  filter dash out = filter dash (drop 2 args).
Proof.
  intros (node & script & command & l & -> & ->)%rewrite_inv. simpl.
  rewrite !filter_cons. by rewrite scan_keeps_dashes.
Qed.

Lemma rewrite_keeps_dash_tokens_witness :
  filter dash ["build"; "-p"; "a,b"; "--verbose"; "-t"; ""; "--"; "-p"; "x"]
  = filter dash
      (drop 2 ["node"; "cli"; "build"; "-p"; "a"; "b"; "--verbose"; "-t";
               "--"; "-p"; "x"]).
Proof.
  apply (rewrite_keeps_dash_tokens
           ["node"; "cli"; "build"; "-p"; "a"; "b"; "--verbose"; "-t";
            "--"; "-p"; "x"]).
  reflexivity.
Defined.

(** X4.  Rewriting is idempotent: a result, set again behind an
    interpreter and a script token, is rewritten to itself. *)
Theorem rewrite_idempotent (args out : list string) (node script : string) :
  rewriteTargetsAndProjects args = Some out →
  rewriteTargetsAndProjects (node :: script :: out) = Some out.
Proof.
  intros (node' & script' & command & l & -> & ->)%rewrite_inv.
  by rewrite rewrite_scan, scan_idempotent.
Qed.

Lemma rewrite_idempotent_witness :
  rewriteTargetsAndProjects
    ["node"; "cli"; "build"; "-p"; "a,b"; "-t"; ""; "--verbose"]
  = Some ["build"; "-p"; "a,b"; "-t"; ""; "--verbose"].
Proof.
  apply (rewrite_idempotent
           ["node"; "cli"; "build"; "-p"; "a"; "b"; "-t"; "--verbose"]).
  reflexivity.
Defined.

End NormalizerMore.

(** ** More on init-local.ts *)

Module InitLocalMore.
Import Effects Collaborators Normalizer InitLocal Dispatcher Observations.
Export DispatcherFacts NormalizerMore.

(** Symbolic execution that leaves the tests of the source as they are. *)
Ltac mstep :=
  cbv beta iota zeta delta
    [mbind M_bind mret M_ret throw tryCatch emit print getEnv setEnv
     getCache setCache initGlobalThisVersion processExit].

Section LocalTrace.
Context (w : World) (P : Event → Prop).
Hypothesis HP : ∀ ev, isLocalAction ev = true → P ev.

Lemma adds_guidance_lines lines :
  adds P (foldr (λ line rest, print ConsoleLog (NgUpdateGuidance line);; rest)
                (mret ()) lines).
Proof. induction lines; simpl; adds_auto. by apply HP. Qed.

Lemma adds_fallbacks ws : adds P (handleAngularCLIFallbacks w ws).
Proof.
  unfold handleAngularCLIFallbacks.
  adds_auto; try apply adds_guidance_lines; try apply adds_requireResolve;
    try (apply adds_requireModule; [|done]); by apply HP.
Qed.

Lemma adds_local_command workspace : adds P (runLocalCommand w workspace).
Proof.
  unfold runLocalCommand, commandsShowHelp.
  adds_auto; try apply adds_fallbacks; try apply adds_commandsParse;
    by apply HP.
Qed.
End LocalTrace.

(** X5.  [initLocal] lets no exception out: it returns, or it ends the
    process with exit code 1. *)
Theorem initLocal_returns_or_exits_one
    (w : World) (workspace : option Workspace) (st : State) :
  (initLocal w workspace st).1 = Ret ()
  ∨ (initLocal w workspace st).1 = Exited 1.
Proof.
  rewrite initLocal_first_action.
  set (st1 := {| env := _; cache := _; globalThisVersion := _; trace := _ |}).
  destruct (adds_local_command w (λ ev, isLocalAction ev = true)
              (λ _ H, H) workspace st1) as (evs & _ & Hevs & _ & Hx).
  unfold tryCatch.
  destruct (runLocalCommand w workspace st1) as [[[]|e|c] st2];
    [by left|by right|].
  right. specialize (Hx c eq_refl). apply last_Some in Hx as [front ->].
  apply Forall_app in Hevs as [_ Hc]. inversion_clear Hc as [|? ? Hc' _].
  simpl in Hc'. by apply bool_decide_eq_true in Hc' as ->.
Qed.

(** *** [--help] *)

Lemma showsHelp_helpFirst tokens : showsHelp tokens = helpFirst tokens.
Proof.
  unfold showsHelp. induction tokens as [|a tokens IH]; [done|]. simpl.
  destruct (String.eqb_spec a "--help") as [->|Hh].
  { simpl. by destruct (indexOf "--" tokens). }
  destruct (String.eqb_spec a "--") as [->|Hs].
  { by destruct (indexOf "--help" tokens). }
  rewrite <- IH.
  by destruct (indexOf "--help" tokens), (indexOf "--" tokens).
Qed.

Lemma helpFirst_dashes tokens :
  helpFirst (filter dash tokens) = helpFirst tokens.
Proof.
  induction tokens as [|a tokens IH]; [done|].
  destruct (Js.startsWith "-" a) eqn:Ha.
  - rewrite filter_cons_True by done. simpl. by rewrite IH.
  - rewrite filter_cons_False by congruence. simpl.
    destruct (String.eqb_spec a "--help") as [->|_]; [done|].
    by destruct (String.eqb_spec a "--") as [->|_].
Qed.

Lemma helpFirst_rewritten args newArgs :
  rewriteTargetsAndProjects args = Some newArgs →
  helpFirst newArgs = helpFirst (drop 2 args).
Proof.
  intros (node & script & command & l & -> & ->)%rewrite_inv.
  rewrite <- helpFirst_dashes, <- (helpFirst_dashes (drop 2 _)). simpl.
  by rewrite !filter_cons, scan_keeps_dashes.
Qed.

(** X6.  A known command other than [run], [g] and [generate], outside of
    the Angular fallback: the help is shown exactly when [--help] stands in
    the command line, from the command token on, before every [--];
    otherwise the rewritten arguments are parsed.  A failure of the parse
    is printed and ends the process with exit code 1. *)
Theorem known_command_shows_help_before_separator
    (w : World) (ws : Workspace) (st : State) (newArgs : list string) :
  negb (String.eqb (type ws) "nx") && shouldDelegateToAngularCLI w = false →
  argIs w 2 "run" || argIs w 2 "g" || argIs w 2 "generate" = false →
  isKnownCommand w (argv w !! 2) = true →
  rewriteTargetsAndProjects (argv w) = Some newArgs →
  trace (initLocal w (Some ws) st).2
  = trace st
    ++ [SetEnv "NEOAI_CLI_SET" "true"; EnsureConsoleInstalled]
    ++ if helpFirst (drop 2 (argv w)) then [ShowHelp]
       else Parse (Some <$> newArgs)
            :: match parseFailure w (Some <$> newArgs) with
               | Some message =>
                   [Print ConsoleError (ErrorMessage (CommandFailed message));
                    ProcessExit 1]
               | None => []
               end.
Proof.
  intros Hplain Hrun Hknown Hrewrite.
  rewrite <- (helpFirst_rewritten _ _ Hrewrite), <- showsHelp_helpFirst.
  unfold initLocal, runLocalCommand. mstep.
  rewrite Hplain, Hrun, Hknown, Hrewrite.
  fold (showsHelp newArgs). unfold commandsShowHelp, commandsParse. mstep.
  destruct (showsHelp newArgs); mstep.
  - unfold record. simpl. by rewrite <- !app_assoc.
  - destruct (parseFailure w (Some <$> newArgs)); mrun; unfold record; simpl;
      by rewrite <- !app_assoc.
Qed.

(** [neoai build --help -- x] shows the help; [neoai build -- --help] parses. *)
Lemma known_command_shows_help_before_separator_witness :
  trace (initLocal (Sample.world ["build"; "-p"; "a"; "b"; "--help"; "--"; "x"]
                                 (Some Sample.ws) Sample.localOnly
                                 Sample.offline)
                   (Some Sample.ws) (initialState ∅)).2
  = [SetEnv "NEOAI_CLI_SET" "true"; EnsureConsoleInstalled; ShowHelp]
  ∧ trace (initLocal (Sample.world ["build"; "--"; "--help"]
                                   (Some Sample.ws) Sample.localOnly
                                   Sample.offline)
                     (Some Sample.ws) (initialState ∅)).2
    = [SetEnv "NEOAI_CLI_SET" "true"; EnsureConsoleInstalled;
       Parse [Some "build"; Some "--"; Some "--help"]].
Proof.
  split.
  - exact (known_command_shows_help_before_separator
             (Sample.world ["build"; "-p"; "a"; "b"; "--help"; "--"; "x"]
                           (Some Sample.ws) Sample.localOnly Sample.offline)
             Sample.ws (initialState ∅)
             ["build"; "-p"; "a,b"; "--help"; "--"; "x"]
             eq_refl eq_refl eq_refl eq_refl).
  - exact (known_command_shows_help_before_separator
             (Sample.world ["build"; "--"; "--help"]
                           (Some Sample.ws) Sample.localOnly Sample.offline)
             Sample.ws (initialState ∅) ["build"; "--"; "--help"]
             eq_refl eq_refl eq_refl eq_refl).
Defined.

(** *** The Angular CLI fallback *)

Lemma adds_bind_ret {A B} (P : Event → Prop) (a : A) (f : A → M B) :
  adds P (f a) → adds P (mret a ≫= f).
Proof. intros H st. exact (H st). Qed.

Lemma initLocal_trace w workspace st (P : Event → Prop) :
  adds P (tryCatch (runLocalCommand w workspace)
            (λ e, print ConsoleError (ErrorMessage e);; processExit 1)) →
  ∃ rest,
    trace (initLocal w workspace st).2
    = trace st ++ SetEnv "NEOAI_CLI_SET" "true" :: rest
    ∧ Forall P rest.
Proof.
  intros H. rewrite initLocal_first_action.
  set (st1 := {| env := _; cache := _; globalThisVersion := _; trace := _ |}).
  destruct (H st1) as (rest & -> & Hrest & _).
  exists rest. unfold st1. simpl. by rewrite <- app_assoc.
Qed.

(** X7.  In a workspace of type [nx] the Angular CLI fallback never runs,
    whatever the command: no deprecation warning, no Angular guidance, no
    [require] of the Angular CLI. *)
Theorem nx_workspace_never_uses_angular_cli
    (w : World) (ws : Workspace) (st : State) :
  type ws = "nx" →
  ∃ rest,
    trace (initLocal w (Some ws) st).2
    = trace st ++ SetEnv "NEOAI_CLI_SET" "true" :: rest
    ∧ Forall (λ ev, isAngularAction ev = false) rest.
Proof.
  intros Htype. apply initLocal_trace.
  apply adds_tryCatch; [|intros e; adds_auto].
  unfold runLocalCommand. apply adds_bind_ret. rewrite Htype. simpl.
  unfold commandsShowHelp. adds_auto; by apply adds_commandsParse.
Qed.

Lemma nx_workspace_never_uses_angular_cli_witness :
  ∃ rest,
    trace (initLocal (Sample.world ["update"] (Some (mkWorkspace "/ws" "nx"))
                                   Sample.localOnly Sample.offline)
                     (Some (mkWorkspace "/ws" "nx")) (initialState ∅)).2
    = trace (initialState ∅) ++ SetEnv "NEOAI_CLI_SET" "true" :: rest
    ∧ Forall (λ ev, isAngularAction ev = false) rest.
Proof.
  apply (nx_workspace_never_uses_angular_cli
           (Sample.world ["update"] (Some (mkWorkspace "/ws" "nx"))
                         Sample.localOnly Sample.offline)
           (mkWorkspace "/ws" "nx") (initialState ∅)).
  reflexivity.
Defined.

Lemma runLocalCommand_angular w ws st :
  type ws ≠ "nx" →
  shouldDelegateToAngularCLI w = true →
  runLocalCommand w (Some ws) st
  = handleAngularCLIFallbacks w ws
      (record st (Print ConsoleWarn AngularDeprecated)).
Proof.
  intros Htype Hangular.
  assert (negb (String.eqb (type ws) "nx") = true) as Hneg
    by by apply negb_true_iff, String.eqb_neq.
  unfold runLocalCommand. set (f := λ ws0 : Workspace, _).
  change ((mret ws ≫= f) st) with (f ws st). unfold f.
  by rewrite Hneg, Hangular.
Qed.

(** X8.  In a workspace of another type, the six Angular commands
    ([analytics], [cache], [completion], [config], [doc], [update]) print
    the deprecation warning and never reach the command engine: nothing is
    parsed, no help is shown. *)
Theorem angular_commands_never_reach_the_engine
    (w : World) (ws : Workspace) (st : State) :
  type ws ≠ "nx" →
  shouldDelegateToAngularCLI w = true →
  ∃ rest,
    trace (initLocal w (Some ws) st).2
    = trace st
      ++ SetEnv "NEOAI_CLI_SET" "true"
         :: Print ConsoleWarn AngularDeprecated :: rest
    ∧ Forall (λ ev, isEngineCall ev = false) rest.
Proof.
  intros Htype Hangular.
  rewrite initLocal_first_action.
  set (st1 := {| env := _; cache := _; globalThisVersion := _; trace := _ |}).
  assert (adds (λ ev, isEngineCall ev = false)
            (tryCatch (handleAngularCLIFallbacks w ws)
               (λ e, print ConsoleError (ErrorMessage e);; processExit 1)))
    as Hadds.
  { apply adds_tryCatch; [|intros e; adds_auto].
    unfold handleAngularCLIFallbacks.
    adds_auto; try apply adds_requireResolve;
      try (apply adds_requireModule; done).
    induction (seq 0 10); simpl; adds_auto. }
  destruct (Hadds (record st1 (Print ConsoleWarn AngularDeprecated)))
    as (rest & E & Hrest & _).
  exists rest. split; [|done].
  unfold tryCatch at 1.
  rewrite (runLocalCommand_angular w ws st1 Htype Hangular).
  fold (tryCatch (handleAngularCLIFallbacks w ws)
          (λ e, print ConsoleError (ErrorMessage e);; processExit 1)
          (record st1 (Print ConsoleWarn AngularDeprecated))).
  rewrite E. unfold st1, record. simpl. by rewrite <- !app_assoc.
Qed.

Lemma angular_commands_never_reach_the_engine_witness :
  ∃ rest,
    trace (initLocal (Sample.world ["cache"; "clean"] (Some Sample.ws)
                                   Sample.localOnly Sample.offline)
                     (Some Sample.ws) (initialState ∅)).2
    = trace (initialState ∅)
      ++ SetEnv "NEOAI_CLI_SET" "true"
         :: Print ConsoleWarn AngularDeprecated :: rest
    ∧ Forall (λ ev, isEngineCall ev = false) rest.
Proof.
  apply (angular_commands_never_reach_the_engine
           (Sample.world ["cache"; "clean"] (Some Sample.ws)
                         Sample.localOnly Sample.offline)
           Sample.ws (initialState ∅)); [discriminate|reflexivity].
Defined.

(** X9.  [handleAngularCLIFallbacks] answers [update] (unless
    FORCE_NG_UPDATE is [true]), [completion] and [cache] itself: it prints
    lines with [console.log], changes nothing else and returns.  Every
    other command goes to the Angular CLI of the workspace: the module is
    required where it resolves; where it does not, or where it fails, the
    error is printed and the process ends with exit code 1. *)
Theorem angular_fallback_forwards_only_when_unanswered
    (w : World) (ws : Workspace) (st : State) :
  (answeredWithoutAngular w (env st) = true →
   (handleAngularCLIFallbacks w ws st).1 = Ret ()
   ∧ env (handleAngularCLIFallbacks w ws st).2 = env st
   ∧ ∃ lines,
       trace (handleAngularCLIFallbacks w ws st).2 = trace st ++ lines
       ∧ Forall (λ ev, ∃ m, ev = Print ConsoleLog m) lines)
  ∧ (answeredWithoutAngular w (env st) = false →
     match resolution w "@angular/cli/lib/init.js" (dir ws) with
     | Some cli =>
         trace (handleAngularCLIFallbacks w ws st).2
         = trace st
           ++ RequireAngularCli cli
              :: match requireFailure w cli with
                 | Some message =>
                     [Print ConsoleError
                        (AngularCliNotFound (CommandFailed message));
                      ProcessExit 1]
                 | None => []
                 end
     | None =>
         (handleAngularCLIFallbacks w ws st).1 = Exited 1
         ∧ trace (handleAngularCLIFallbacks w ws st).2
           = trace st
             ++ [Print ConsoleError
                   (AngularCliNotFound
                      (ModuleNotFound "@angular/cli/lib/init.js" (dir ws)));
                 ProcessExit 1]
     end).
Proof.
  unfold answeredWithoutAngular, handleAngularCLIFallbacks, requireResolve,
    requireModule.
  mstep.
  destruct (argIs w 2 "update"),
    (bool_decide (env st !! "FORCE_NG_UPDATE" = Some "true")),
    (argIs w 2 "completion"), (argIs w 2 "cache");
    simpl; (split; [intros Ha|intros Hn]); try discriminate;
    try (destruct (Js.truthy (argv w !! 3)); simpl);
    try (split; [done|split; [done|]]);
    try (unfold record; simpl; rewrite <- ?app_assoc; simpl;
         eexists; split; [try reflexivity; by rewrite app_nil_r|];
         repeat constructor; by eexists).
  all: destruct (resolution w "@angular/cli/lib/init.js" (dir ws)) as [cli|];
    mstep; [destruct (requireFailure w cli); mstep|];
    unfold record; simpl; by rewrite <- ?app_assoc.
Qed.

(** [ng update] is answered with the ten lines about [neoai migrate]; with
    FORCE_NG_UPDATE set to [true] it goes to the Angular CLI, which this
    workspace does not have. *)
Lemma angular_fallback_forwards_only_when_unanswered_witness :
  ((handleAngularCLIFallbacks
      (Sample.world ["update"] (Some Sample.ws) Sample.localOnly
                    Sample.offline) Sample.ws (initialState ∅)).1 = Ret ()
   ∧ env (handleAngularCLIFallbacks
            (Sample.world ["update"] (Some Sample.ws) Sample.localOnly
                          Sample.offline) Sample.ws (initialState ∅)).2
     = ∅
   ∧ ∃ lines,
       trace (handleAngularCLIFallbacks
                (Sample.world ["update"] (Some Sample.ws) Sample.localOnly
                              Sample.offline) Sample.ws (initialState ∅)).2
       = [] ++ lines
       ∧ Forall (λ ev, ∃ m, ev = Print ConsoleLog m) lines)
  ∧ ((handleAngularCLIFallbacks
        (Sample.world ["update"] (Some Sample.ws) Sample.nothingResolves
                      Sample.offline) Sample.ws
        (initialState {["FORCE_NG_UPDATE" := "true"]})).1 = Exited 1
     ∧ trace (handleAngularCLIFallbacks
                (Sample.world ["update"] (Some Sample.ws)
                              Sample.nothingResolves Sample.offline)
                Sample.ws
                (initialState {["FORCE_NG_UPDATE" := "true"]})).2
       = [] ++ [Print ConsoleError
                  (AngularCliNotFound
                     (ModuleNotFound "@angular/cli/lib/init.js" "/ws"));
                ProcessExit 1]).
Proof.
  split.
  - exact (proj1 (angular_fallback_forwards_only_when_unanswered
                    (Sample.world ["update"] (Some Sample.ws) Sample.localOnly
                                  Sample.offline) Sample.ws (initialState ∅))
                 eq_refl).
  - exact (proj2 (angular_fallback_forwards_only_when_unanswered
                    (Sample.world ["update"] (Some Sample.ws)
                                  Sample.nothingResolves Sample.offline)
                    Sample.ws
                    (initialState {["FORCE_NG_UPDATE" := "true"]}))
                 eq_refl).
Defined.

End InitLocalMore.

(** ** More on bin/neoai.ts *)

Module DispatcherMore.
Import Effects Collaborators Normalizer InitLocal Dispatcher Observations.
Export InitLocalMore.

Section Actions.
Context (w : World) (P : Event → Prop).
Hypothesis HP : ∀ ev, isDispatcherAction w ev = true → P ev.

Lemma adds_latest : adds P (getLatestVersionOfNeoai w).
Proof.
  unfold getLatestVersionOfNeoai, _getLatestVersionOfNeoai.
  adds_auto; apply adds_execSync; by apply HP.
Qed.

Lemma adds_warn g l : adds P (warnIfUsingOutdatedGlobalInstall w g l).
Proof.
  unfold warnIfUsingOutdatedGlobalInstall, checkOutdatedGlobalInstallation.
  adds_auto; try apply adds_major; try apply adds_latest; by apply HP.
Qed.

Lemma adds_initLocal workspace : adds P (initLocal w workspace).
Proof.
  unfold initLocal. adds_auto; [by apply HP| |by apply HP..].
  apply adds_local_command. intros ev Hev. apply HP.
  destruct ev; try done. simpl in *. by rewrite Hev.
Qed.

Lemma adds_resolveNeoai workspace : adds P (resolveNeoai w workspace).
Proof. unfold resolveNeoai. adds_auto. apply adds_requireResolve. Qed.
End Actions.

(** Every action of a run is one the dispatcher can take in this world:
    the platform check only where it is due, exit code 0 only for
    [--version], the two writes to the environment, the two registry
    commands. *)
Lemma run_actions w : adds (λ ev, isDispatcherAction w ev = true) (run w).
Proof.
  unfold run, main, route, assertSupportedPlatform, determineNeoaiVersions,
    resolveLocalNeoai, handleNeoaiVersionCommand, handleNoWorkspace,
    handleMissingLocalInstallation.
  destruct (needsPlatformCheck w) eqn:Hcheck,
    (findWorkspaceRoot w) as [ws|] eqn:Hws,
    (argIs w 2 "--version") eqn:Hversion.
  all: adds_auto;
    try (apply adds_commandsArgv; done);
    try (apply adds_resolveNeoai);
    try (apply adds_requireModule; done);
    try (apply adds_warn; by intros);
    try (apply adds_initLocal; by intros).
  all: unfold isDispatcherAction; rewrite ?Hcheck, ?Hws, ?Hversion; try done.
  all: by apply bool_decide_eq_true_2.
Qed.

(** *** The routes the claims leave aside *)

Lemma argIs_exclusive w i a b : a ≠ b → argIs w i a = true → argIs w i b = false.
Proof.
  unfold argIs. intros Hne Ha%bool_decide_eq_true.
  apply bool_decide_eq_false_2. congruence.
Qed.


Lemma version_not_exempt w :
  argIs w 2 "--version" = true →
  isExemptCommand w = false ∧ needsPlatformCheck w = false
  ∧ isNeoaiCloudCommand (argv w !! 2) = false.
Proof.
  intros H. unfold isExemptCommand, needsPlatformCheck.
  rewrite H.
  rewrite !(argIs_exclusive w 2 "--version") by done.
  repeat split; try done.
  unfold argIs in H. apply bool_decide_eq_true in H. by rewrite H.
Qed.



(** X11.  On a platform that is not supported, a command other than
    [report], [--version], [--help] and [reset] ends at once: the error is
    printed, the exit code is 1, and nothing else has happened (no
    environment file loaded, no variable written, no command run). *)
Theorem unsupported_platform_is_fatal
    (w : World) (e : gmap string string) :
  needsPlatformCheck w = true →
  platformSupported w = false →
  run w (initialState e)
  = (Exited 1,
     {| env := e; cache := None; globalThisVersion := None;
        trace := [AssertPlatform;
                  Print ConsoleError (ErrorValue UnsupportedPlatform);
                  ProcessExit 1] |}).
Proof.
  intros Hcheck Hplatform. unfold run, main, assertSupportedPlatform.
  by rewrite Hcheck, Hplatform.
Qed.

Lemma unsupported_platform_is_fatal_witness :
  run {| argv := ["node"; "neoai"; "build"]; platformSupported := false;
         findWorkspaceRoot := Some Sample.ws; daemonEnabled := false;
         globalsRoot := "/usr/lib";
         getNeoaiInstallationPath := λ root, root;
         resolution := Sample.globalAndLocal; packageVersion := "18.0.0";
         localPackageVersion := λ _, None;
         semverMajor := Sample.sampleMajor;
         execSyncOutput := Sample.offline; commandHandlers := [];
         argvFailure := None; parseFailure := λ _, None;
         requireFailure := λ _, None |} (initialState ∅)
  = (Exited 1,
     {| env := ∅; cache := None; globalThisVersion := None;
        trace := [AssertPlatform;
                  Print ConsoleError (ErrorValue UnsupportedPlatform);
                  ProcessExit 1] |}).
Proof.
  apply (unsupported_platform_is_fatal
           {| argv := ["node"; "neoai"; "build"]; platformSupported := false;
              findWorkspaceRoot := Some Sample.ws; daemonEnabled := false;
              globalsRoot := "/usr/lib";
              getNeoaiInstallationPath := λ root, root;
              resolution := Sample.globalAndLocal; packageVersion := "18.0.0";
              localPackageVersion := λ _, None;
              semverMajor := Sample.sampleMajor;
              execSyncOutput := Sample.offline; commandHandlers := [];
              argvFailure := None; parseFailure := λ _, None;
              requireFailure := λ _, None |} ∅); reflexivity.
Defined.

(** X12.  [--version], run by a copy that resolves itself: the platform is
    not checked, the two versions are printed ([Not found] for one that is
    not known) and the process ends with exit code 0, before the tests for
    a workspace and for a local installation, whose outcome does not
    matter. *)
Theorem version_command_prints_and_exits_zero
    (w : World) (e : gmap string string) (selfNeoai : string) :
  argIs w 2 "--version" = true →
  resolved w None = Some selfNeoai →
  (run w (initialState e)).1 = Exited 0
  ∧ trace (run w (initialState e)).2
    = match findWorkspaceRoot w with
      | Some ws =>
          LoadRootEnvFiles (dir ws)
          :: (if daemonEnabled w then [] else [SetupWorkspaceContext (dir ws)])
      | None => []
      end
      ++ [Print ConsoleLog
            (Versions (shownVersion (localVersionOf w))
                      (shownVersion (globalVersionOf w selfNeoai)));
          ProcessExit 0].
Proof.
  intros Hversion Hself.
  destruct (version_not_exempt w Hversion) as (Hexempt & Hcheck & _).
  assert (passesPlatformCheck w = true) as Hpass
    by (unfold passesPlatformCheck; by rewrite Hcheck).
  rewrite (run_routed w selfNeoai _ Hexempt Hpass Hself).
  unfold route, handleNeoaiVersionCommand. rewrite Hversion. mstep.
  unfold record, afterPrelude, preludeEvents. rewrite Hcheck. simpl.
  split; [done|]. by rewrite <- app_assoc.
Qed.

(** [neoai --version] outside of every workspace. *)
Lemma version_command_prints_and_exits_zero_witness :
  (run (Sample.world ["--version"] None Sample.globalOnly Sample.offline)
       (initialState ∅)).1 = Exited 0
  ∧ trace (run (Sample.world ["--version"] None Sample.globalOnly
                             Sample.offline) (initialState ∅)).2
    = [] ++ [Print ConsoleLog (Versions "Not found" "v18.0.0"); ProcessExit 0].
Proof.
  exact (version_command_prints_and_exits_zero
           (Sample.world ["--version"] None Sample.globalOnly Sample.offline)
           ∅ Sample.globalPath eq_refl eq_refl).
Defined.

(** X13.  In a workspace where no local installation resolves, a command
    that is neither exempt, cloud-only nor [--version] ends with the
    message that names the workspace root and exit code 1: the command does
    not run, no version check is made, no registry is asked. *)
Theorem missing_local_installation_is_fatal
    (w : World) (e : gmap string string) (ws : Workspace)
    (selfNeoai : string) :
  findWorkspaceRoot w = Some ws →
  isExemptCommand w = false →
  isNeoaiCloudCommand (argv w !! 2) = false →
  argIs w 2 "--version" = false →
  passesPlatformCheck w = true →
  Js.truthy (resolved w (Some ws)) = false →
  resolved w None = Some selfNeoai →
  (run w (initialState e)).1 = Exited 1
  ∧ trace (run w (initialState e)).2
    = preludeEvents w
      ++ [Print OutputError
            (MissingLocalInstallation
               (if Js.truthy (Some (dir ws)) then Some (dir ws) else None));
          ProcessExit 1].
Proof.
  intros Hws Hexempt Hcloud Hversion Hpass Hlocal Hself.
  rewrite (run_routed w selfNeoai _ Hexempt Hpass Hself).
  unfold route, handleMissingLocalInstallation, localNeoaiOf.
  rewrite Hws, Hversion, Hcloud, Hlocal.
  assert (bool_decide (is_Some (Some ws)) = true) as ->
    by by apply bool_decide_eq_true_2.
  mrun. unfold afterPrelude, record. simpl. split; [done|].
  by rewrite <- app_assoc.
Qed.

(** [neoai build] in [/ws], run by the global copy, nothing installed in
    the workspace. *)
Lemma missing_local_installation_is_fatal_witness :
  (run (Sample.world ["build"] (Some Sample.ws) Sample.globalOnly
                     Sample.offline) (initialState ∅)).1 = Exited 1
  ∧ trace (run (Sample.world ["build"] (Some Sample.ws) Sample.globalOnly
                             Sample.offline) (initialState ∅)).2
    = [AssertPlatform; LoadRootEnvFiles "/ws"; SetupWorkspaceContext "/ws"]
      ++ [Print OutputError (MissingLocalInstallation (Some "/ws"));
          ProcessExit 1].
Proof.
  exact (missing_local_installation_is_fatal
           (Sample.world ["build"] (Some Sample.ws) Sample.globalOnly
                         Sample.offline)
           ∅ Sample.ws Sample.globalPath
           eq_refl eq_refl eq_refl eq_refl eq_refl eq_refl eq_refl).
Defined.

(** *** What holds of every run *)


Lemma adds_head {A} (P : Event → Prop) (m : M A) st ev :
  adds P m → head (trace st) = Some ev → head (trace (m st).2) = Some ev.
Proof.
  intros Hm Hev. destruct (Hm st) as (evs & -> & _).
  destruct (trace st); [done|]. done.
Qed.

(** X14.  The platform check is made exactly for the commands other than
    [report], [--version], [--help] and [reset]: for those four it never
    appears in a run, whatever else happens; for every other command it is
    the first action of the run, before the environment files of the
    workspace are loaded. *)
Theorem platform_check_first_or_never
    (w : World) (e : gmap string string) :
  (needsPlatformCheck w = false →
   AssertPlatform ∉ trace (run w (initialState e)).2)
  ∧ (needsPlatformCheck w = true →
     head (trace (run w (initialState e)).2) = Some AssertPlatform).
Proof.
  split; intros Hcheck.
  - destruct (run_actions w (initialState e)) as (evs & -> & Hevs & _).
    simpl. intros Hin. rewrite Forall_forall in Hevs.
    apply Hevs in Hin. simpl in Hin. congruence.
  - unfold run, main, assertSupportedPlatform. rewrite Hcheck.
    destruct (platformSupported w) eqn:Hplatform; [|done].
    match goal with
    | |- context [tryCatch (_ ≫= ?K) ?H] => set (rest := K); set (handler := H)
    end.
    change (head (trace (tryCatch (rest ()) handler
                           (record (initialState e) AssertPlatform)).2)
            = Some AssertPlatform).
    apply (adds_head (λ _, True)); [|done].
    subst rest handler. cbv beta.
    unfold route, assertSupportedPlatform, determineNeoaiVersions,
      resolveLocalNeoai, handleNeoaiVersionCommand, handleNoWorkspace,
      handleMissingLocalInstallation.
    adds_auto;
      try (apply adds_commandsArgv; done);
      try (apply adds_resolveNeoai);
      try (apply adds_requireModule; done);
      try (apply adds_warn; by intros);
      try (apply adds_initLocal; by intros).
Qed.

(** [neoai report] in a workspace, and [neoai build] in the same one. *)
Lemma platform_check_first_or_never_witness :
  (AssertPlatform
   ∉ trace (run (Sample.world ["report"] (Some Sample.ws)
                              Sample.globalAndLocal Sample.offline)
                (initialState ∅)).2)
  ∧ head (trace (run (Sample.world ["build"] (Some Sample.ws)
                                   Sample.globalAndLocal Sample.offline)
                     (initialState ∅)).2) = Some AssertPlatform.
Proof.
  split.
  - exact (proj1 (platform_check_first_or_never
                    (Sample.world ["report"] (Some Sample.ws)
                                  Sample.globalAndLocal Sample.offline) ∅)
                 eq_refl).
  - exact (proj2 (platform_check_first_or_never
                    (Sample.world ["build"] (Some Sample.ws)
                                  Sample.globalAndLocal Sample.offline) ∅)
                 eq_refl).
Defined.


(** X16.  No exception escapes a run, and the exit codes are 0 and 1 only:
    a run either returns (the command went on in process), or ends the
    process with code 1, or ends it with code 0, which happens only for
    [--version]. *)
Theorem run_never_throws
    (w : World) (st : State) :
  (run w st).1 = Ret ()
  ∨ (run w st).1 = Exited 1
  ∨ ((run w st).1 = Exited 0 ∧ argIs w 2 "--version" = true).
Proof.
  destruct (run_actions w st) as (evs & _ & Hevs & _ & Hexit).
  destruct (run w st) as [[[]|error|code] st'] eqn:Hrun; simpl in *.
  - by left.
  - exfalso. unfold run, tryCatch in Hrun.
    destruct (main w st) as [[[]|error'|code] st1]; by cbv in Hrun.
  - specialize (Hexit code eq_refl).
    assert (ProcessExit code ∈ evs) as Hin.
    { destruct evs as [|ev evs _] using rev_ind; [done|].
      rewrite last_snoc in Hexit. injection Hexit as ->.
      apply elem_of_app. right. by apply list_elem_of_singleton. }
    rewrite Forall_forall in Hevs. apply Hevs in Hin. simpl in Hin.
    apply orb_true_iff in Hin as [->%bool_decide_eq_true|Hin];
      [right; by left|].
    apply andb_true_iff in Hin as [->%bool_decide_eq_true Hversion].
    right; by right.
Qed.

(** *** Child processes *)

Lemma childProcesses_app tr tr' :
  childProcesses (tr ++ tr') = childProcesses tr ++ childProcesses tr'.
Proof. apply omap_app. Qed.

Lemma childProcesses_quiet evs :
  Forall (λ ev, isExecSync ev = false) evs → childProcesses evs = [].
Proof.
  induction 1 as [|ev evs Hev _ IH]; [done|]. by destruct ev.
Qed.

Lemma execCount_childProcesses st :
  execCount st = length (childProcesses (trace st)).
Proof.
  unfold execCount. induction (trace st) as [|ev tr IH]; [done|].
  destruct ev;
    first [rewrite filter_cons_True by done
          |rewrite filter_cons_False by done];
    simpl; by rewrite ?IH.
Qed.

Section ChildProcesses.
Context (w : World).

(** A computation that starts no child process. *)
Abbreviation quietly := (adds (λ ev : Event, isExecSync ev = false)).

(** A computation that asks the registry at most once: [npm], and [pnpm]
    only after [npm] has failed. *)
Definition looksUp {A} (m : M A) : Prop :=
  ∀ st, ∃ l,
    childProcesses (trace (m st).2) = childProcesses (trace st) ++ l
    ∧ (l = []
       ∨ l = ["npm view neoai@latest version"]
       ∨ (l = ["npm view neoai@latest version";
               "pnpm view neoai@latest version"]
          ∧ execSyncOutput w (execCount st) "npm view neoai@latest version"
            = None)).

Lemma quietly_keeps {A} (m : M A) st :
  quietly m →
  childProcesses (trace (m st).2) = childProcesses (trace st)
  ∧ execCount (m st).2 = execCount st.
Proof.
  intros Hm. destruct (Hm st) as (evs & E & Hevs & _).
  assert (childProcesses (trace (m st).2) = childProcesses (trace st)) as Hc.
  { by rewrite E, childProcesses_app, (childProcesses_quiet evs), app_nil_r. }
  split; [done|]. by rewrite !execCount_childProcesses, Hc.
Qed.

Lemma looksUp_quietly {A} (m : M A) : quietly m → looksUp m.
Proof.
  intros Hm st. exists []. rewrite app_nil_r.
  split; [by apply quietly_keeps|by left].
Qed.

Lemma looksUp_after {A B} (m : M A) (f : A → M B) :
  quietly m → (∀ a, looksUp (f a)) → looksUp (m ≫= f).
Proof.
  intros Hm Hf st. destruct (quietly_keeps m st Hm) as [Hc Hn].
  unfold mbind, M_bind.
  destruct (m st) as [[a|e|c] st1]; simpl in Hc, Hn;
    [|exists []; rewrite app_nil_r; simpl; split; [done|by left]..].
  destruct (Hf a st1) as (l & E & Hl). exists l. by rewrite E, Hc, Hn in *.
Qed.

Lemma looksUp_before {A B} (m : M A) (f : A → M B) :
  looksUp m → (∀ a, quietly (f a)) → looksUp (m ≫= f).
Proof.
  intros Hm Hf st. destruct (Hm st) as (l & E & Hl).
  unfold mbind, M_bind.
  destruct (m st) as [[a|e|c] st1]; simpl in E; [|by exists l..].
  destruct (quietly_keeps (f a) st1 (Hf a)) as [Hc _].
  exists l. by rewrite Hc.
Qed.

Lemma looksUp_tryCatch {A} (m : M A) (h : Error → M A) :
  looksUp m → (∀ e, quietly (h e)) → looksUp (tryCatch m h).
Proof.
  intros Hm Hh st. destruct (Hm st) as (l & E & Hl).
  unfold tryCatch.
  destruct (m st) as [[a|e|c] st1]; simpl in E; [by exists l| |by exists l].
  destruct (quietly_keeps (h e) st1 (Hh e)) as [Hc _].
  exists l. by rewrite Hc.
Qed.

Lemma looksUp_latest : looksUp (getLatestVersionOfNeoai w).
Proof.
  intros st. unfold getLatestVersionOfNeoai, _getLatestVersionOfNeoai, execSync.
  mstep. destruct (Js.truthy (cache st)).
  { exists []. rewrite app_nil_r. split; [done|by left]. }
  destruct (execSyncOutput w (execCount st) _) as [out|] eqn:Hnpm.
  { exists ["npm view neoai@latest version"]. simpl.
    split; [by rewrite childProcesses_app|right; by left]. }
  exists ["npm view neoai@latest version"; "pnpm view neoai@latest version"].
  split; [|right; by right].
  destruct (execSyncOutput w _ "pnpm view neoai@latest version");
    simpl; by rewrite !childProcesses_app, <- app_assoc.
Qed.

Lemma quietly_major v : quietly (major w v).
Proof. apply adds_major. Qed.

Lemma looksUp_check g l : looksUp (checkOutdatedGlobalInstallation w g l).
Proof.
  unfold checkOutdatedGlobalInstallation.
  destruct (negb (Js.truthy g)); [apply looksUp_quietly; by adds_auto|].
  destruct (Js.truthy l).
  { apply looksUp_quietly. adds_auto; apply adds_major. }
  apply looksUp_before; [apply looksUp_latest|].
  intros latest. adds_auto; apply adds_major.
Qed.

Lemma looksUp_warn g l : looksUp (warnIfUsingOutdatedGlobalInstall w g l).
Proof.
  unfold warnIfUsingOutdatedGlobalInstall.
  apply looksUp_after; [by adds_auto|]. intros marker.
  destruct (Js.truthy marker); [apply looksUp_quietly; by adds_auto|].
  apply looksUp_before; [apply looksUp_check|]. intros b. by adds_auto.
Qed.

Lemma quietly_initLocal workspace : quietly (initLocal w workspace).
Proof.
  unfold initLocal. adds_auto.
  apply adds_local_command. by intros [].
Qed.

Lemma looksUp_run : looksUp (run w).
Proof.
  unfold run. apply looksUp_tryCatch; [|intros error; by adds_auto].
  unfold main. apply looksUp_after.
  { unfold assertSupportedPlatform. by adds_auto. }
  intros _. apply looksUp_after; [by adds_auto|]. intros _.
  destruct (isExemptCommand w).
  { apply looksUp_quietly. adds_auto. by apply adds_commandsArgv. }
  apply looksUp_after; [by adds_auto|]. intros _.
  destruct (findWorkspaceRoot w) as [ws|].
  - apply looksUp_after.
    { unfold resolveLocalNeoai. adds_auto. apply adds_resolveNeoai. }
    intros localNeoai. apply looksUp_after; [apply adds_resolveNeoai|].
    intros selfNeoai. apply looksUp_after.
    { unfold determineNeoaiVersions. by adds_auto. }
    intros [LOCAL GLOBAL]. unfold route.
    apply looksUp_after.
    { unfold handleNeoaiVersionCommand. by adds_auto. }
    intros _.
    assert (bool_decide (is_Some (Some ws)) = true) as ->
      by by apply bool_decide_eq_true_2.
    cbn [negb]. apply looksUp_after; [by adds_auto|].
    intros _. apply looksUp_after.
    { unfold handleMissingLocalInstallation. by adds_auto. }
    intros _. destruct (isNeoaiCloudCommand _).
    { apply looksUp_quietly. adds_auto. by apply adds_commandsArgv. }
    destruct (bool_decide _).
    { apply looksUp_quietly, quietly_initLocal. }
    destruct (Js.truthy localNeoai); [|apply looksUp_quietly; by adds_auto].
    apply looksUp_before; [apply looksUp_warn|].
    intros _. adds_auto; by apply adds_requireModule.
  - change (resolveLocalNeoai w None ≫= ?f) with (f None). cbv beta.
    apply looksUp_after; [apply adds_resolveNeoai|].
    intros selfNeoai. apply looksUp_after.
    { unfold determineNeoaiVersions. by adds_auto. }
    intros [LOCAL GLOBAL]. unfold route.
    apply looksUp_after.
    { unfold handleNeoaiVersionCommand. by adds_auto. }
    intros _.
    assert (bool_decide (is_Some (@None Workspace)) = false) as ->
      by (apply bool_decide_eq_false_2; by intros [? ?]).
    cbn [negb]. apply looksUp_before.
    { unfold handleNoWorkspace.
      apply looksUp_after; [by adds_auto|]. intros _.
      apply looksUp_after; [by adds_auto|]. intros _.
      apply looksUp_before; [apply looksUp_warn|]. intros _. by adds_auto. }
    intros _. unfold handleMissingLocalInstallation.
    change (Js.truthy (@None string)) with false. cbn [negb andb].
    adds_auto; try (by apply adds_commandsArgv);
      try apply quietly_initLocal.
Qed.
End ChildProcesses.

(** X17.  A run asks the registry at most once, whatever the command: it
    starts no child process, or [npm view] alone, or [npm view] and then
    [pnpm view]; the second only after the first has failed. *)
Theorem run_asks_the_registry_at_most_once
    (w : World) (e : gmap string string) :
  childProcesses (trace (run w (initialState e)).2) = []
  ∨ childProcesses (trace (run w (initialState e)).2)
    = ["npm view neoai@latest version"]
  ∨ (childProcesses (trace (run w (initialState e)).2)
     = ["npm view neoai@latest version"; "pnpm view neoai@latest version"]
     ∧ execSyncOutput w 0 "npm view neoai@latest version" = None).
Proof.
  destruct (looksUp_run w (initialState e)) as (l & -> & Hl). exact Hl.
Qed.

(** *** The path of the wrapper *)

Lemma append_cons x (a b : string) : String x a +:+ b = String x (a +:+ b).
Proof. done. Qed.

Lemma append_assoc (a b c : string) : (a +:+ b) +:+ c = a +:+ b +:+ c.
Proof.
  induction a as [|x a IH]; [done|]. by rewrite !append_cons, IH.
Qed.

Lemma append_length (a b : string) :
  String.length (a +:+ b) = String.length a + String.length b.
Proof.
  induction a as [|x a IH]; [done|].
  rewrite append_cons. cbn [String.length]. by rewrite IH.
Qed.

(** Whether [s] starts a string is settled by as many characters as [s]
    has. *)
Lemma prefix_append s y u :
  String.length s ≤ String.length y →
  String.prefix s (y +:+ u) = String.prefix s y.
Proof.
  revert y. induction s as [|a s IH]; intros [|b y] Hlen;
    rewrite ?append_cons; cbn [String.length String.prefix] in *;
    [by destruct u|done|lia|].
  destruct (Ascii.ascii_dec a b); [|done]. apply IH. lia.
Qed.

Lemma index_cons s c t :
  String.index 0 s (String c t)
  = if String.prefix s (String c t) then Some 0
    else match String.index 0 s t with
         | Some n => Some (S n)
         | None => None
         end.
Proof. done. Qed.

Lemma index_first_neoai pre tail :
  Js.includes ".neoai" (pre +:+ ".neoa") = false →
  String.index 0 ".neoai" (pre +:+ ".neoai" +:+ tail)
  = Some (String.length pre).
Proof.
  unfold Js.includes. induction pre as [|c pre IH]; intros H.
  { change ("" +:+ ?t) with t.
    by rewrite append_cons, index_cons, <- append_cons, prefix_append
      by (cbn [String.length]; lia). }
  change (String c pre +:+ ?t) with (String c (pre +:+ t)) in *.
  rewrite index_cons in H. rewrite index_cons.
  destruct (String.prefix ".neoai" (String c (pre +:+ ".neoa"))) eqn:Hp;
    [done|].
  destruct (String.index 0 ".neoai" (pre +:+ ".neoa")) eqn:Hi; [done|].
  assert (String.prefix ".neoai" (String c (pre +:+ ".neoai" +:+ tail))
          = false) as ->.
  { etrans; [|exact Hp].
    replace (String c (pre +:+ ".neoai" +:+ tail))
      with (String c (pre +:+ ".neoa") +:+ "i" +:+ tail)
      by by rewrite append_cons, append_assoc.
    apply prefix_append. cbn [String.length]. rewrite append_length.
    cbn [String.length]. lia. }
  by rewrite IH.
Qed.

Lemma substring_head pre tail :
  String.substring 0 (String.length pre) (pre +:+ tail) = pre.
Proof.
  induction pre as [|c pre IH];
    rewrite ?append_cons; cbn [String.length String.substring];
    [by destruct tail|]. by rewrite IH.
Qed.

Lemma substring_whole s n :
  String.length s ≤ n → String.substring 0 n s = s.
Proof.
  revert n. induction s as [|c s IH]; intros [|n] Hn;
    cbn [String.length String.substring] in *; [done|done|lia|].
  rewrite IH; [done|lia].
Qed.

Lemma substring_skip pre tail n :
  String.substring (String.length pre) n (pre +:+ tail)
  = String.substring 0 n tail.
Proof.
  induction pre as [|c pre IH]; [done|].
  rewrite append_cons. cbn [String.length String.substring]. apply IH.
Qed.

(** X18.  Where [.neoai] first occurs in the path of the local copy, the
    wrapper that is required is [neoaiw.js] in that very directory: the
    path is kept up to the first [.neoai], and the rest of the line (with
    every later [.neoai]) gives way to [/neoaiw.js].  Only what follows a
    line terminator would be kept. *)
Theorem wrapper_path_cuts_at_first_neoai (pre rest : string) :
  Js.includes ".neoai" (pre +:+ ".neoa") = false →
  Js.includes ".neoai" (pre +:+ ".neoai" +:+ rest) = true
  ∧ neoaiWrapperPath (pre +:+ ".neoai" +:+ rest)
    = pre +:+ ".neoai/" +:+ afterLine rest +:+ "neoaiw.js".
Proof.
  intros Hfirst. unfold Js.includes, neoaiWrapperPath.
  rewrite (index_first_neoai pre rest Hfirst). split; [done|].
  rewrite substring_head.
  replace (String.length pre + 6)
    with (String.length (pre +:+ ".neoai")) by by rewrite append_length.
  rewrite <- (append_assoc pre ".neoai" rest), substring_skip.
  rewrite substring_whole by (rewrite !append_length; lia).
  by rewrite !append_assoc.
Qed.

(** The managed installation of [/ws], with a second [.neoai] further on
    in the path. *)
Lemma wrapper_path_cuts_at_first_neoai_witness :
  Js.includes ".neoai"
    ("/ws/" +:+ ".neoai" +:+ "/installation/.neoai/bin/neoai.js") = true
  ∧ neoaiWrapperPath
      ("/ws/" +:+ ".neoai" +:+ "/installation/.neoai/bin/neoai.js")
    = "/ws/" +:+ ".neoai/"
      +:+ afterLine "/installation/.neoai/bin/neoai.js" +:+ "neoaiw.js".
Proof.
  exact (wrapper_path_cuts_at_first_neoai
           "/ws/" "/installation/.neoai/bin/neoai.js" eq_refl).
Defined.

End DispatcherMore.

(** ** More on bin/post-install.ts *)

Module PostInstallMore.
Import Effects PostInstall.
Export PostInstallFacts.

(** X19.  In a copy that is not the one the workspace resolves, and in a
    workspace without [neoai.json], the step does nothing: it ends at once
    through the [finally] block, with exit code 0 and the timer cleared,
    and it logs the duration only.  The platform is not checked and
    [neoai.json] is not read: an unsupported platform and a broken
    [neoai.json] leave no trace in the log. *)
Theorem post_install_skips_other_copies
    (w : World) (mainNeoaiPath thisNeoaiPath : string) :
  resolveMain w = Some mainNeoaiPath →
  resolveThis w = Some thisNeoaiPath →
  mainNeoaiPath ≠ thisNeoaiPath ∨ neoaiJsonExists w = false →
  outcomes w
  = [{| cause := WorkDone; exitCode := 0; exitAt := 0; timerCleared := true;
        log := [Took 0] |}].
Proof.
  intros Hmain Hthis Hskip.
  unfold outcomes, tryBlock, isMainNeoaiPackage. rewrite Hmain, Hthis.
  destruct (String.eqb_spec mainNeoaiPath thisNeoaiPath) as [Heq|Hne];
    [|done].
  destruct Hskip as [Hne| ->]; [by destruct Hne|done].
Qed.

(** A copy nested in [node_modules] of another package, on a platform that
    is not supported. *)
Lemma post_install_skips_other_copies_witness :
  outcomes {| resolveMain := Some "/ws/node_modules/neoai/index.js";
              resolveThis := Some "/ws/node_modules/a/node_modules/neoai/index.js";
              neoaiJsonExists := true; platformSupported := false;
              cloudUsed := None; cloudOptions := false;
              verifyOrUpdate := NeverSettles; strayError := None |}
  = [{| cause := WorkDone; exitCode := 0; exitAt := 0; timerCleared := true;
        log := [Took 0] |}].
Proof.
  apply (post_install_skips_other_copies
           {| resolveMain := Some "/ws/node_modules/neoai/index.js";
              resolveThis :=
                Some "/ws/node_modules/a/node_modules/neoai/index.js";
              neoaiJsonExists := true; platformSupported := false;
              cloudUsed := None; cloudOptions := false;
              verifyOrUpdate := NeverSettles; strayError := None |}
           "/ws/node_modules/neoai/index.js"
           "/ws/node_modules/a/node_modules/neoai/index.js");
    [reflexivity|reflexivity|left; discriminate].
Defined.

End PostInstallMore.
